(** * books.py: search normalisation, query construction and column sorting

    A shallow embedding of the parts of [books.py] that carry semantics:
    - [UnaccentedMap] (the lazily filled translation table [UNACCENTED]),
    - [Application.MakeFtsContent] and the search pattern of
      [Application.Select],
    - [Application.SortBy] with the heading commands it installs.

    Python values are modelled as follows.  A [str] is the list of its
    codepoints ([list Z]); an exception is a constructor of [exn] carried by
    [result]; the dict behind [UNACCENTED] is a [gmap Z pyval] threaded
    through every call that may fill it.  The Unicode character database
    ([unicodedata.decomposition]) and the locale ([locale.strxfrm]) are not
    part of the program: they are [Variable]s of the sections below. *)

From Stdlib Require Import ZArith Ascii String.
From stdpp Require Import gmap strings list sorting.

Local Open Scope Z_scope.

(** ** Python strings and exceptions *)

(** A Python [str]: the sequence of its codepoints. *)
Abbreviation pystr := (list Z).

Definition is_codepoint (c : Z) : Prop := 0 <= c <= 0x10FFFF.

Definition is_codepointb (c : Z) : bool := (0 <=? c) && (c <=? 0x10FFFF).

(** A [str] literal with characters below 256, written as a Rocq string. *)
Fixpoint str (s : string) : pystr :=
  match s with
  | EmptyString => []
  | String a s' => Z.of_N (N_of_ascii a) :: str s'
  end.

Inductive exn : Type :=
  | ValueError
  | TclError
  | OperationalError.

Inductive result (A : Type) : Type :=
  | Ok (a : A)
  | Raise (e : exn).

Arguments Ok {A} a.
Arguments Raise {A} e.

#[global] Instance result_ret : MRet result := @Ok.

#[global] Instance result_bind : MBind result :=
  λ A B f m, match m with Ok a => f a | Raise e => Raise e end.

(** What a translation table may hold for a key: an ordinal or a [str]. *)
Inductive pyval : Type :=
  | PyInt (n : Z)
  | PyStr (s : pystr).

#[global] Instance pyval_eq_dec : EqDecision pyval.
Proof. solve_decision. Defined.

(** [str.isspace] on one character ([Py_UNICODE_ISSPACE]). *)
Definition isspace (c : Z) : bool :=
  ((0x09 <=? c) && (c <=? 0x0D)) || ((0x1C <=? c) && (c <=? 0x1F))
  || (c =? 0x20) || (c =? 0x85) || (c =? 0xA0) || (c =? 0x1680)
  || ((0x2000 <=? c) && (c <=? 0x200A))
  || (c =? 0x2028) || (c =? 0x2029) || (c =? 0x202F) || (c =? 0x205F)
  || (c =? 0x3000).

Fixpoint take_while {A} (p : A → bool) (l : list A) : list A :=
  match l with
  | [] => []
  | x :: l' => if p x then x :: take_while p l' else []
  end.

Fixpoint drop_while {A} (p : A → bool) (l : list A) : list A :=
  match l with
  | [] => []
  | x :: l' => if p x then drop_while p l' else l
  end.

(** [s.split(None, maxcount)]: skip a run of whitespace, cut the run of
    non-whitespace that follows, and repeat at most [maxcount] times; what
    is left after that is appended without its leading whitespace. *)
Fixpoint split_whitespace (maxcount : nat) (s : pystr) : list pystr :=
  match drop_while isspace s with
  | [] => []
  | c :: s' =>
    match maxcount with
    | O => [c :: s']
    | S n =>
      (c :: take_while (λ x, negb (isspace x)) s')
        :: split_whitespace n (drop_while (λ x, negb (isspace x)) s')
    end
  end.

(** [s.split()]: a string of [n] characters has fewer than [n + 1] words,
    so the bound is never reached. *)
Definition str_split (s : pystr) : list pystr :=
  split_whitespace (length s) s.

(** [sep.join(l)] *)
Fixpoint str_join (sep : pystr) (l : list pystr) : pystr :=
  match l with
  | [] => []
  | [s] => s
  | s :: l' => s ++ sep ++ str_join sep l'
  end.

(** ** [int(s, 16)] *)

Definition hex_digit (c : Z) : option Z :=
  if (0x30 <=? c) && (c <=? 0x39) then Some (c - 0x30)
  else if (0x61 <=? c) && (c <=? 0x66) then Some (c - 0x61 + 10)
  else if (0x41 <=? c) && (c <=? 0x46) then Some (c - 0x41 + 10)
  else None.

(** The whitespace [int] strips at both ends: ASCII blanks, and the
    characters from 127 on that [str.isspace] accepts. *)
Definition int_isspace (c : Z) : bool :=
  ((0x09 <=? c) && (c <=? 0x0D)) || (c =? 0x20)
  || ((127 <=? c) && isspace c).

(** The digits of the literal, read left to right: underscores may separate
    digits one at a time and may not end the run; the scan stops at the first
    character that is neither, and returns it with the rest. [seen] counts
    the digits read, [prev] tells whether the last character was an
    underscore. *)
Fixpoint hex_digits (acc : Z) (seen : nat) (prev : bool) (s : pystr)
    : option (Z * nat * pystr) :=
  match s with
  | [] => if prev then None else Some (acc, seen, [])
  | c :: s' =>
    if c =? 0x5F then
      if prev then None else hex_digits acc seen true s'
    else
      match hex_digit c with
      | Some d => hex_digits (16 * acc + d) (S seen) false s'
      | None => if prev then None else Some (acc, seen, s)
      end
  end.

(** [int(s, 16)] for a [str] of characters below 256 (none of which is a
    decimal digit outside ASCII): leading blanks, a sign, a [0x] prefix
    that may be followed by one underscore, digits, trailing blanks.
    [None] stands for [ValueError]. *)
Definition int16 (s : pystr) : option Z :=
  let s := drop_while int_isspace s in
  let '(sign, s) :=
    match s with
    | 0x2B :: r => (1, r)
    | 0x2D :: r => (-1, r)
    | _ => (1, s)
    end in
  let s :=
    match s with
    | 0x30 :: x :: r =>
      if (x =? 0x78) || (x =? 0x58) then
        match r with 0x5F :: r' => r' | _ => r end
      else s
    | _ => s
    end in
  match s with
  | 0x5F :: _ => None
  | _ =>
    match hex_digits 0 0 false s with
    | Some (n, S _, rest) =>
      match drop_while int_isspace rest with
      | [] => Some (sign * n)
      | _ :: _ => None
      end
    | _ => None
    end
  end.

(** [l[i]] for a list and a non-negative index; [None] stands for
    [IndexError]. *)
Definition list_getitem {A} (l : list A) (i : nat) : option A := l !! i.

(** [chr(i)] *)
Definition chr (i : Z) : result Z :=
  if is_codepointb i then Ok i else Raise ValueError.

(** ** [class UnaccentedMap(dict)] *)

Module UnaccentedMap.

Definition CHAR_REPLACEMENT : gmap Z pystr :=
  list_to_map [
    (0xC6, str "AE");   (* Latin capital letter AE *)
    (0xE6, str "ae");   (* Latin small letter ae *)
    (0xD0, str "D");    (* Latin capital letter Eth *)
    (0xF0, str "d");    (* Latin small letter eth *)
    (0xD8, str "OE");   (* Latin capital letter O with stroke *)
    (0xF8, str "oe");   (* Latin small letter o with stroke *)
    (0xDE, str "Th");   (* Latin capital letter Thorn *)
    (0xFE, str "th");   (* Latin small letter thorn *)
    (0xDF, str "ss");   (* Latin small letter sharp s *)
    (0x110, str "Dj");  (* Latin capital letter D with stroke *)
    (0x111, str "dj");  (* Latin small letter d with stroke *)
    (0x126, str "H");   (* Latin capital letter H with stroke *)
    (0x127, str "h");   (* Latin small letter h with stroke *)
    (0x131, str "i");   (* Latin small letter dotless i *)
    (0x138, str "q");   (* Latin small letter kra *)
    (0x141, str "L");   (* Latin capital letter L with stroke *)
    (0x142, str "l");   (* Latin small letter l with stroke *)
    (0x14A, str "Ng");  (* Latin capital letter Eng *)
    (0x14B, str "ng");  (* Latin small letter eng *)
    (0x152, str "OE");  (* Latin capital ligature OE *)
    (0x153, str "oe");  (* Latin small ligature oe *)
    (0x166, str "Th");  (* Latin capital letter T with stroke *)
    (0x167, str "th")   (* Latin small letter t with stroke *)
  ].

Section Table.

(** [unicodedata.decomposition], as a function of the codepoint of its
    one-character argument.  Its results are built from hexadecimal
    digits, blanks and tags such as [<compat>]. *)
Variable decomposition : Z → string.

(** [int(de.split(None, 1)[0], 16)]; [None] when the index or the
    conversion raises. *)
Definition first_component (de : pystr) : option Z :=
  tok ← list_getitem (split_whitespace 1 de) 0;
  int16 tok.

(** Lines 61 to 68: the value [__missing__] computes for a character that
    the dict does not hold yet. The [except] clause catches both exceptions
    the [try] block can raise. *)
Definition resolve (key : Z) : pyval :=
  let de := str (decomposition key) in
  if bool_decide (de ≠ []) then
    match first_component de with
    | Some n => PyInt n
    | None => PyInt key
    end
  else
    match CHAR_REPLACEMENT !! key with
    | Some s => PyStr s
    | None => PyInt key
    end.

Definition __missing__ (self : gmap Z pyval) (key : Z)
    : result (pyval * gmap Z pyval) :=
  match self !! key with
  | Some ch => Ok (ch, self)
  | None =>
    c ← chr key;
    let ch := resolve c in
    Ok (ch, <[key := ch]> self)
  end.

(** [self[key]] on a dict subclass: the stored value, or [__missing__]. *)
Definition __getitem__ (self : gmap Z pyval) (key : Z)
    : result (pyval * gmap Z pyval) :=
  match self !! key with
  | Some ch => Ok (ch, self)
  | None => __missing__ self key
  end.

(** What [str.translate] writes for a table value: the character of an
    ordinal, which must be a codepoint, or the string itself. *)
Definition replacement (x : pyval) : result pystr :=
  match x with
  | PyInt n => if is_codepointb n then Ok [n] else Raise ValueError
  | PyStr s => Ok s
  end.

(** [s.translate(table)]: every character is looked up in turn, so the
    table fills as the string is read.  A [ValueError] of the lookup or of
    the replacement ends the translation. *)
Fixpoint str_translate (table : gmap Z pyval) (s : pystr)
    : result (pystr * gmap Z pyval) :=
  match s with
  | [] => Ok ([], table)
  | c :: s' =>
    '(x, table) ← __getitem__ table c;
    r ← replacement x;
    '(out, table) ← str_translate table s';
    Ok (r ++ out, table)
  end.

(** The characters a table value stands for. *)
Definition chars (x : pyval) : pystr :=
  match x with
  | PyInt n => [n]
  | PyStr s => s
  end.

(** Folding of one codepoint and of a text, without the cache. *)
Definition Fold (key : Z) : pystr := chars (resolve key).

Definition FoldText (s : pystr) : pystr := s ≫= Fold.

End Table.

End UnaccentedMap.


(** ** Ordering of [str] and [list.sort] *)

(** [a < b] on [str]: lexicographic on codepoints. *)
Fixpoint str_lt (a b : pystr) : bool :=
  match a, b with
  | _, [] => false
  | [], _ :: _ => true
  | x :: a', y :: b' => (x <? y) || ((x =? y) && str_lt a' b')
  end.

(** [l.reverse()] *)
Abbreviation list_reverse := reverse (only parsing).

Section ListSort.

Context {A K : Type} (key : A → K) (lt : K → K → bool).

(** [x] stood before every element of [l]: it goes in front of the first
    element whose key is not below its own. Keys are only compared
    with [<], as [list.sort] does. *)
Fixpoint sort_insert (x : A) (l : list A) : list A :=
  match l with
  | [] => [x]
  | y :: l' =>
    if lt (key y) (key x) then y :: sort_insert x l' else x :: y :: l'
  end.

Definition stable_sort (l : list A) : list A := foldr sort_insert [] l.

(** [l.sort(key=key, reverse=reverse)]: a stable sort; for [reverse] the
    list is reversed before and after it, which keeps equal elements in
    their original order. *)
Definition list_sort (reverse : bool) (l : list A) : list A :=
  if reverse then list_reverse (stable_sort (list_reverse l))
  else stable_sort l.

End ListSort.

(** ** Columns *)

Module Column.
Definition ID : nat := 0.
Definition SHELF : nat := 1.
Definition AUTHOR : nat := 2.
Definition TITLE : nat := 3.
Definition TRANSLATOR : nat := 4.
Definition ORIGINAL_TITLE : nat := 5.
Definition BORROWED : nat := 6.
Definition COUNT : nat := 7.
End Column.

Definition COLUMN_NAMES : list string :=
  ["ID"; "Shelf"; "Author"; "Title"; "Translator"; "Original title";
   "Borrowed"]%string.

Definition COLUMN_ORDER : list nat :=
  [Column.ID; Column.SHELF; Column.AUTHOR; Column.TITLE; Column.BORROWED;
   Column.TRANSLATOR; Column.ORIGINAL_TITLE].

(** [[COLUMN_NAMES[COLUMN_ORDER[i]] for i in range(5)]] *)
Definition DISPLAYED_COLUMNS : list string :=
  omap (λ i, c ← COLUMN_ORDER !! i; COLUMN_NAMES !! c) (seq 0 5).

(** ** [class Application] *)

Module Application.

(** A child of the tree view: its item identifier and its values. *)
Record item : Type := Item { iid : nat; values : list pystr }.

(** A row of a query result; [None] is SQL [NULL]. *)
Abbreviation row := (list (option pystr)).

(** The fields of [self] that the modelled methods read or write, with the
    module-level [UNACCENTED] and the rows behind [self.connection]:
    [connection pattern] is what [SELECT ... WHERE BooksFTS.content MATCH
    pattern] fetches, or the error SQLite raises.  [tree_view] lists the
    children of the root in display order, [heading_command] holds for
    each heading the call [SortBy(column, reverse)] its command makes. *)
Record state : Type := State {
  connection : pystr → result (list row);
  UNACCENTED : gmap Z pyval;
  search_var : pystr;
  last_search_var : option pystr;
  tree_view : list item;
  next_iid : nat;
  heading_command : gmap string (string * bool);
  clicked_column : string;
  reverse : bool
}.

(** [l[lo:hi]] for [0 <= lo <= hi] *)
Definition slice {A} (lo hi : nat) (l : list A) : list A :=
  take (hi - lo) (drop lo l).

(** [tree_view.insert('', tk.END, values=columns)] *)
Definition tv_insert (columns : list pystr) (tv : list item * nat)
    : list item * nat :=
  (tv.1 ++ [Item tv.2 columns], S tv.2).

(** [tree_view.set(child, column)] for the column at index [j] *)
Definition tv_set (child : item) (j : nat) : pystr :=
  default [] (values child !! j).

(** [tree_view.move(child, '', i)]: the item leaves its place and enters
    at index [i] of what remains, or at the end.  [SortBy] only moves an item
    that stands at index [i] or after it. *)
Definition tv_move (child : nat) (i : nat) (tv : list item)
    : result (list item) :=
  match list_find (λ it, iid it = child) tv with
  | Some (k, it) =>
    let rest := delete k tv in Ok (take i rest ++ it :: drop i rest)
  | None => Raise TclError
  end.

(** The index of a display column, which the tree view needs to read or
    configure it. *)
Definition column_index (column : string) : result nat :=
  match list_find (λ c, c = column) DISPLAYED_COLUMNS with
  | Some (j, _) => Ok j
  | None => Raise TclError
  end.

Section Methods.

Variable decomposition : Z → string.

(** [locale.strxfrm] under the locale the program sets. *)
Variable strxfrm : pystr → pystr.

Definition MakeFtsContent (table : gmap Z pyval)
    (content : list (option pystr)) : result (pystr * gmap Z pyval) :=
  UnaccentedMap.str_translate decomposition table
    (str_join (str " ")
       (omap (λ x : option pystr,
                match x with Some (c :: s) => Some (c :: s) | _ => None end)
             (slice (Column.AUTHOR - Column.SHELF)
                    (Column.ORIGINAL_TITLE + 1 - Column.SHELF) content))).

(** Lines 236 and 237 of [Select]. *)
Definition search_pattern (table : gmap Z pyval) (raw : pystr)
    : result (pystr * gmap Z pyval) :=
  UnaccentedMap.str_translate decomposition table
    (str_join (str " ") ((λ s, s ++ str "*") <$> str_split raw)).

(** [for i, item in enumerate(data): tree_view.move(item[1], '', i)],
    from index [i] on. *)
Fixpoint move_all (data : list (pystr * nat)) (i : nat) (tv : list item)
    : result (list item) :=
  match data with
  | [] => Ok tv
  | it :: data' => tv' ← tv_move it.2 i tv; move_all data' (S i) tv'
  end.

Definition SortBy (self : state) (column : string) (reverse : bool)
    : result state :=
  j ← column_index column;
  let data := (λ child, (tv_set child j, iid child)) <$> tree_view self in
  let data := list_sort (λ it, strxfrm it.1) str_lt reverse data in
  tv ← move_all data 0 (tree_view self);
  Ok (State (connection self) (UNACCENTED self) (search_var self)
        (last_search_var self) tv (next_iid self)
        (<[column := (column, negb reverse)]> (heading_command self))
        column reverse).

Definition Select (self : state) : result state :=
  if bool_decide (Some (search_var self) = last_search_var self) then
    Ok self
  else
    let last := search_var self in
    '(pattern, table) ← search_pattern (UNACCENTED self) last;
    rows ← connection self pattern;
    let tv :=
      foldl (λ tv r, tv_insert (default [] <$> r) tv)
            ([], next_iid self) rows in
    SortBy
      (State (connection self) table (search_var self) (Some last)
         tv.1 tv.2 (heading_command self) (clicked_column self)
         (reverse self))
      (clicked_column self) (reverse self).

(** [__init__], for the fields above: every heading gets the command
    [SortBy(column, False)], and the first [Select] fills the view. *)
Definition __init__ (db : pystr → result (list row)) : result state :=
  Select
    (State db ∅ [] None [] 0
       (list_to_map ((λ c, (c, (c, false))) <$> DISPLAYED_COLUMNS))
       (default ""%string (DISPLAYED_COLUMNS !! Column.AUTHOR)) false).

(** What the user does: type into the search box (which sets
    [search_var] before [KeyPressed] runs [Select]), click a heading, or
    confirm a dialog, which commits new rows and calls [Finalize]. *)
Inductive event : Type :=
  | KeyPressed (text : pystr)
  | HeadingClicked (column : string)
  | Finalize (db : pystr → result (list row)).

Definition handle (self : state) (e : event) : result state :=
  match e with
  | KeyPressed text =>
    Select (State (connection self) (UNACCENTED self) text
              (last_search_var self) (tree_view self) (next_iid self)
              (heading_command self) (clicked_column self) (reverse self))
  | HeadingClicked column =>
    match heading_command self !! column with
    | Some (c, r) => SortBy self c r
    | None => Ok self
    end
  | Finalize db =>
    Select (State db (UNACCENTED self) (search_var self) None
              (tree_view self) (next_iid self) (heading_command self)
              (clicked_column self) (reverse self))
  end.

Fixpoint run (self : state) (events : list event) : result state :=
  match events with
  | [] => Ok self
  | e :: events' => self' ← handle self e; run self' events'
  end.

End Methods.

End Application.

(** ** A part of the Unicode character database

    The decomposition mappings (field 5 of [UnicodeData.txt]) of the blocks
    Basic Latin to Latin Extended-B (U+0000 to U+024F) and Combining
    Diacritical Marks (U+0300 to U+036F): [unicodedata.decomposition] returns
    these strings there, and the empty string for the other characters of
    these blocks. Characters outside these blocks are not described; the
    facts stated with this table only look up characters inside them. *)

Definition unicode_data : list (Z * string) :=
  [
    (0x00A0, "<noBreak> 0020"); (0x00A8, "<compat> 0020 0308");
    (0x00AA, "<super> 0061"); (0x00AF, "<compat> 0020 0304");
    (0x00B2, "<super> 0032"); (0x00B3, "<super> 0033");
    (0x00B4, "<compat> 0020 0301"); (0x00B5, "<compat> 03BC");
    (0x00B8, "<compat> 0020 0327"); (0x00B9, "<super> 0031");
    (0x00BA, "<super> 006F"); (0x00BC, "<fraction> 0031 2044 0034");
    (0x00BD, "<fraction> 0031 2044 0032");
    (0x00BE, "<fraction> 0033 2044 0034"); (0x00C0, "0041 0300");
    (0x00C1, "0041 0301"); (0x00C2, "0041 0302"); (0x00C3, "0041 0303");
    (0x00C4, "0041 0308"); (0x00C5, "0041 030A"); (0x00C7, "0043 0327");
    (0x00C8, "0045 0300"); (0x00C9, "0045 0301"); (0x00CA, "0045 0302");
    (0x00CB, "0045 0308"); (0x00CC, "0049 0300"); (0x00CD, "0049 0301");
    (0x00CE, "0049 0302"); (0x00CF, "0049 0308"); (0x00D1, "004E 0303");
    (0x00D2, "004F 0300"); (0x00D3, "004F 0301"); (0x00D4, "004F 0302");
    (0x00D5, "004F 0303"); (0x00D6, "004F 0308"); (0x00D9, "0055 0300");
    (0x00DA, "0055 0301"); (0x00DB, "0055 0302"); (0x00DC, "0055 0308");
    (0x00DD, "0059 0301"); (0x00E0, "0061 0300"); (0x00E1, "0061 0301");
    (0x00E2, "0061 0302"); (0x00E3, "0061 0303"); (0x00E4, "0061 0308");
    (0x00E5, "0061 030A"); (0x00E7, "0063 0327"); (0x00E8, "0065 0300");
    (0x00E9, "0065 0301"); (0x00EA, "0065 0302"); (0x00EB, "0065 0308");
    (0x00EC, "0069 0300"); (0x00ED, "0069 0301"); (0x00EE, "0069 0302");
    (0x00EF, "0069 0308"); (0x00F1, "006E 0303"); (0x00F2, "006F 0300");
    (0x00F3, "006F 0301"); (0x00F4, "006F 0302"); (0x00F5, "006F 0303");
    (0x00F6, "006F 0308"); (0x00F9, "0075 0300"); (0x00FA, "0075 0301");
    (0x00FB, "0075 0302"); (0x00FC, "0075 0308"); (0x00FD, "0079 0301");
    (0x00FF, "0079 0308"); (0x0100, "0041 0304"); (0x0101, "0061 0304");
    (0x0102, "0041 0306"); (0x0103, "0061 0306"); (0x0104, "0041 0328");
    (0x0105, "0061 0328"); (0x0106, "0043 0301"); (0x0107, "0063 0301");
    (0x0108, "0043 0302"); (0x0109, "0063 0302"); (0x010A, "0043 0307");
    (0x010B, "0063 0307"); (0x010C, "0043 030C"); (0x010D, "0063 030C");
    (0x010E, "0044 030C"); (0x010F, "0064 030C"); (0x0112, "0045 0304");
    (0x0113, "0065 0304"); (0x0114, "0045 0306"); (0x0115, "0065 0306");
    (0x0116, "0045 0307"); (0x0117, "0065 0307"); (0x0118, "0045 0328");
    (0x0119, "0065 0328"); (0x011A, "0045 030C"); (0x011B, "0065 030C");
    (0x011C, "0047 0302"); (0x011D, "0067 0302"); (0x011E, "0047 0306");
    (0x011F, "0067 0306"); (0x0120, "0047 0307"); (0x0121, "0067 0307");
    (0x0122, "0047 0327"); (0x0123, "0067 0327"); (0x0124, "0048 0302");
    (0x0125, "0068 0302"); (0x0128, "0049 0303"); (0x0129, "0069 0303");
    (0x012A, "0049 0304"); (0x012B, "0069 0304"); (0x012C, "0049 0306");
    (0x012D, "0069 0306"); (0x012E, "0049 0328"); (0x012F, "0069 0328");
    (0x0130, "0049 0307"); (0x0132, "<compat> 0049 004A");
    (0x0133, "<compat> 0069 006A"); (0x0134, "004A 0302");
    (0x0135, "006A 0302"); (0x0136, "004B 0327"); (0x0137, "006B 0327");
    (0x0139, "004C 0301"); (0x013A, "006C 0301"); (0x013B, "004C 0327");
    (0x013C, "006C 0327"); (0x013D, "004C 030C"); (0x013E, "006C 030C");
    (0x013F, "<compat> 004C 00B7"); (0x0140, "<compat> 006C 00B7");
    (0x0143, "004E 0301"); (0x0144, "006E 0301"); (0x0145, "004E 0327");
    (0x0146, "006E 0327"); (0x0147, "004E 030C"); (0x0148, "006E 030C");
    (0x0149, "<compat> 02BC 006E"); (0x014C, "004F 0304");
    (0x014D, "006F 0304"); (0x014E, "004F 0306"); (0x014F, "006F 0306");
    (0x0150, "004F 030B"); (0x0151, "006F 030B"); (0x0154, "0052 0301");
    (0x0155, "0072 0301"); (0x0156, "0052 0327"); (0x0157, "0072 0327");
    (0x0158, "0052 030C"); (0x0159, "0072 030C"); (0x015A, "0053 0301");
    (0x015B, "0073 0301"); (0x015C, "0053 0302"); (0x015D, "0073 0302");
    (0x015E, "0053 0327"); (0x015F, "0073 0327"); (0x0160, "0053 030C");
    (0x0161, "0073 030C"); (0x0162, "0054 0327"); (0x0163, "0074 0327");
    (0x0164, "0054 030C"); (0x0165, "0074 030C"); (0x0168, "0055 0303");
    (0x0169, "0075 0303"); (0x016A, "0055 0304"); (0x016B, "0075 0304");
    (0x016C, "0055 0306"); (0x016D, "0075 0306"); (0x016E, "0055 030A");
    (0x016F, "0075 030A"); (0x0170, "0055 030B"); (0x0171, "0075 030B");
    (0x0172, "0055 0328"); (0x0173, "0075 0328"); (0x0174, "0057 0302");
    (0x0175, "0077 0302"); (0x0176, "0059 0302"); (0x0177, "0079 0302");
    (0x0178, "0059 0308"); (0x0179, "005A 0301"); (0x017A, "007A 0301");
    (0x017B, "005A 0307"); (0x017C, "007A 0307"); (0x017D, "005A 030C");
    (0x017E, "007A 030C"); (0x017F, "<compat> 0073"); (0x01A0, "004F 031B");
    (0x01A1, "006F 031B"); (0x01AF, "0055 031B"); (0x01B0, "0075 031B");
    (0x01C4, "<compat> 0044 017D"); (0x01C5, "<compat> 0044 017E");
    (0x01C6, "<compat> 0064 017E"); (0x01C7, "<compat> 004C 004A");
    (0x01C8, "<compat> 004C 006A"); (0x01C9, "<compat> 006C 006A");
    (0x01CA, "<compat> 004E 004A"); (0x01CB, "<compat> 004E 006A");
    (0x01CC, "<compat> 006E 006A"); (0x01CD, "0041 030C");
    (0x01CE, "0061 030C"); (0x01CF, "0049 030C"); (0x01D0, "0069 030C");
    (0x01D1, "004F 030C"); (0x01D2, "006F 030C"); (0x01D3, "0055 030C");
    (0x01D4, "0075 030C"); (0x01D5, "00DC 0304"); (0x01D6, "00FC 0304");
    (0x01D7, "00DC 0301"); (0x01D8, "00FC 0301"); (0x01D9, "00DC 030C");
    (0x01DA, "00FC 030C"); (0x01DB, "00DC 0300"); (0x01DC, "00FC 0300");
    (0x01DE, "00C4 0304"); (0x01DF, "00E4 0304"); (0x01E0, "0226 0304");
    (0x01E1, "0227 0304"); (0x01E2, "00C6 0304"); (0x01E3, "00E6 0304");
    (0x01E6, "0047 030C"); (0x01E7, "0067 030C"); (0x01E8, "004B 030C");
    (0x01E9, "006B 030C"); (0x01EA, "004F 0328"); (0x01EB, "006F 0328");
    (0x01EC, "01EA 0304"); (0x01ED, "01EB 0304"); (0x01EE, "01B7 030C");
    (0x01EF, "0292 030C"); (0x01F0, "006A 030C");
    (0x01F1, "<compat> 0044 005A"); (0x01F2, "<compat> 0044 007A");
    (0x01F3, "<compat> 0064 007A"); (0x01F4, "0047 0301");
    (0x01F5, "0067 0301"); (0x01F8, "004E 0300"); (0x01F9, "006E 0300");
    (0x01FA, "00C5 0301"); (0x01FB, "00E5 0301"); (0x01FC, "00C6 0301");
    (0x01FD, "00E6 0301"); (0x01FE, "00D8 0301"); (0x01FF, "00F8 0301");
    (0x0200, "0041 030F"); (0x0201, "0061 030F"); (0x0202, "0041 0311");
    (0x0203, "0061 0311"); (0x0204, "0045 030F"); (0x0205, "0065 030F");
    (0x0206, "0045 0311"); (0x0207, "0065 0311"); (0x0208, "0049 030F");
    (0x0209, "0069 030F"); (0x020A, "0049 0311"); (0x020B, "0069 0311");
    (0x020C, "004F 030F"); (0x020D, "006F 030F"); (0x020E, "004F 0311");
    (0x020F, "006F 0311"); (0x0210, "0052 030F"); (0x0211, "0072 030F");
    (0x0212, "0052 0311"); (0x0213, "0072 0311"); (0x0214, "0055 030F");
    (0x0215, "0075 030F"); (0x0216, "0055 0311"); (0x0217, "0075 0311");
    (0x0218, "0053 0326"); (0x0219, "0073 0326"); (0x021A, "0054 0326");
    (0x021B, "0074 0326"); (0x021E, "0048 030C"); (0x021F, "0068 030C");
    (0x0226, "0041 0307"); (0x0227, "0061 0307"); (0x0228, "0045 0327");
    (0x0229, "0065 0327"); (0x022A, "00D6 0304"); (0x022B, "00F6 0304");
    (0x022C, "00D5 0304"); (0x022D, "00F5 0304"); (0x022E, "004F 0307");
    (0x022F, "006F 0307"); (0x0230, "022E 0304"); (0x0231, "022F 0304");
    (0x0232, "0059 0304"); (0x0233, "0079 0304"); (0x0340, "0300");
    (0x0341, "0301"); (0x0343, "0313"); (0x0344, "0308 0301")
  ]%string.

Definition unicodedata_decomposition (c : Z) : string :=
  default ""%string (list_to_map (M := gmap Z string) unicode_data !! c).

(** ** Predicates and reference definitions used by the statements *)

(** A well-formed Python [str]: every element is a codepoint. *)
Definition is_str (s : pystr) : Prop := Forall is_codepoint s.

(** The table names codepoints only: whenever the first component of a
    decomposition reads as a hexadecimal number, that number is one. *)
Definition codepoints_only (decomposition : Z → string) : Prop :=
  ∀ key n, is_codepoint key →
    UnaccentedMap.first_component (str (decomposition key)) = Some n →
    is_codepoint n.

(** Every entry the dict holds is the one [__missing__] computes. *)
Definition cached (decomposition : Z → string) (table : gmap Z pyval) : Prop :=
  ∀ k v, table !! k = Some v → v = UnaccentedMap.resolve decomposition k.

(** The dict after the characters of [s] have been looked up in order. *)
Definition filled (decomposition : Z → string) (table : gmap Z pyval)
    (s : pystr) : gmap Z pyval :=
  foldl (λ t c, <[c := UnaccentedMap.resolve decomposition c]> t) table s.




(** Splitting on whitespace as the documentation words it: the string is
    cut at every whitespace character, which gives the pieces between
    consecutive separators, and the empty pieces are discarded. *)
Fixpoint pieces (s : pystr) : list pystr :=
  match s with
  | [] => [[]]
  | c :: s' =>
    if isspace c then [] :: pieces s'
    else
      match pieces s' with
      | p :: ps => (c :: p) :: ps
      | [] => [[c]]
      end
  end.

Definition tokens (s : pystr) : list pystr :=
  filter (λ t, t ≠ []) (pieces s).

(** The fields that are kept for indexing: an absent field counts as an
    empty one, and empty fields are dropped. *)
Definition kept (fields : list (option pystr)) : list pystr :=
  filter (λ f, f ≠ []) (default [] <$> fields).

(** The order of two rows under a sort key: [x] may stand before [y] when
    the key of [y] is not below the key of [x]. *)
Definition key_le {A K} (key : A → K) (lt : K → K → bool) (x y : A) : Prop :=
  lt (key y) (key x) = false.

(** The elements whose key is neither below nor above [k]. *)
Definition same_key {A K} (key : A → K) (lt : K → K → bool) (k : K) (x : A)
    : bool :=
  negb (lt (key x) k) && negb (lt k (key x)).

(** The collation comparator: two display strings are compared through
    the keys [strxfrm] gives them. *)
Definition Compare (strxfrm : pystr → pystr) (a b : pystr) : comparison :=
  if str_lt (strxfrm a) (strxfrm b) then Lt
  else if str_lt (strxfrm b) (strxfrm a) then Gt
  else Eq.

(** The state with other children in the tree view. *)
Definition with_tree_view (self : Application.state)
    (tv : list Application.item) : Application.state :=
  Application.State (Application.connection self)
    (Application.UNACCENTED self) (Application.search_var self)
    (Application.last_search_var self) tv (Application.next_iid self)
    (Application.heading_command self) (Application.clicked_column self)
    (Application.reverse self).





(** ** A small library to run the window on

    Three books, whatever the pattern; the key of a string is the string
    itself, as [strxfrm] gives it in the C locale. *)
Definition small_library (pattern : pystr) : result (list Application.row) :=
  Ok [[Some (str "1"); Some (str "B2"); Some (str "Lem");
       Some (str "Solaris"); None; None; None];
      [Some (str "2"); Some (str "A1"); Some (str "Eco");
       Some (str "Baudolino"); Some (str "Ann"); None; None];
      [Some (str "3"); Some (str "A1"); Some (str "Lem");
       Some (str "Eden"); None; None; None]].

Definition strxfrm_C (s : pystr) : pystr := s.

(** The window after [__init__], a click on [Title] and a click on
    [Author]. *)
Definition clicked_twice : list Application.event :=
  [Application.HeadingClicked "Title"; Application.HeadingClicked "Author"].

Definition small_window : Application.state := Eval vm_compute in
    match
      self0 ← Application.__init__ unicodedata_decomposition strxfrm_C
                small_library;
      Application.run unicodedata_decomposition strxfrm_C self0 clicked_twice
    with
    | Ok self => self
    | Raise _ => Application.State small_library ∅ [] None [] 0 ∅ "" false
    end.

(** ** Text of the dialogs *)

(** [s.strip()] *)
Definition str_strip (s : pystr) : pystr :=
  reverse (drop_while isspace (reverse (drop_while isspace s))).

(** [' '.join(text.strip().split())], what [InsertBook] stores for the
    text of an entry (line 260). *)
Definition squeezed (text : pystr) : pystr :=
  str_join (str " ") (str_split (str_strip text)).

(** A word: a string that is not empty and holds no whitespace. *)
Definition is_word (t : pystr) : Prop :=
  t ≠ [] ∧ Forall (λ c, isspace c = false) t.

(** ** The inverse column order *)

(** [l[i] = v]; [None] stands for [IndexError]. *)
Definition list_setitem {A} (l : list A) (i : nat) (v : A)
    : option (list A) :=
  if decide (i < length l)%nat then Some (<[i := v]> l) else None.

(** [for i, x in enumerate(order): acc[x] = i], counting from [i]. *)
Fixpoint converse_from (i : nat) (order : list nat) (acc : list (option nat))
    : option (list (option nat)) :=
  match order with
  | [] => Some acc
  | x :: order' =>
    acc' ← list_setitem acc x (Some i); converse_from (S i) order' acc'
  end.

(** Lines 106 to 108, for any order and count. *)
Definition converse (order : list nat) (count : nat)
    : option (list (option nat)) :=
  converse_from 0 order (replicate count None).

Definition CONVERSE_COLUMN_ORDER : list (option nat) := Eval vm_compute in
  default [] (converse COLUMN_ORDER Column.COUNT).

(** The values of a record as line 241 selects them and the view holds
    them: [record] lists the fields in the order of [Column], from [ID] to
    [BORROWED]. *)
Definition displayed (record : list pystr) : list pystr :=
  omap (λ c, record !! c) COLUMN_ORDER.

(** ** The dialogs *)

Module Dialog.

Inductive error : Type :=
  | IndexError
  | AttributeError
  | TypeError
  | Raised (e : exn).

(** What a handler does: it returns, or an exception leaves it.  [Throw]
    does not tell which statements were executed before the exception. *)
Inductive attempt (A : Type) : Type :=
  | Return (a : A)
  | Throw (e : error).

Arguments Return {A} a.
Arguments Throw {A} e.

#[global] Instance attempt_ret : MRet attempt := @Return.

#[global] Instance attempt_bind : MBind attempt :=
  λ A B f m, match m with Return a => f a | Throw e => Throw e end.

Definition index {A} (l : list A) (i : nat) : attempt A :=
  match l !! i with
  | Some x => Return x
  | None => Throw IndexError
  end.

Definition lift {A} (r : result A) : attempt A :=
  match r with
  | Ok a => Return a
  | Raise e => Throw (Raised e)
  end.

(** A [tk.Entry]: its text, and whether its state is [readonly]. *)
Record entry : Type := Entry { text : pystr; readonly : bool }.

(** The statements a handler executes. *)
Inductive statement : Type :=
  | INSERT_INTO_Books (content : list pystr)
  | INSERT_INTO_BooksFTS (rowid : Z) (content : pystr)
  | UPDATE_Books (content : list pystr) (id : Z)
  | UPDATE_BooksFTS (content : pystr) (rowid : Z).

(** [for x in l: ...] with a body that may raise. *)
Fixpoint for_each {A B} (f : A → attempt B) (l : list A) : attempt (list B) :=
  match l with
  | [] => Return []
  | x :: l' => y ← f x; ys ← for_each f l'; Return (y :: ys)
  end.

(** [range(Column.SHELF, Column.COUNT)] *)
Definition field_columns : list nat :=
  seq Column.SHELF (Column.COUNT - Column.SHELF).

(** The entry of a row holds [item_values[CONVERSE_COLUMN_ORDER[row]]];
    an index that is [None] raises [TypeError]. *)
Definition MakeEntries (item_values : list pystr) (enabled : bool)
    : attempt (list (option entry)) :=
  entries ←
    for_each
      (λ row,
         c ← index CONVERSE_COLUMN_ORDER row;
         j ← match c with Some j => Return j | None => Throw TypeError end;
         v ← index item_values j;
         Return (Some (Entry v (negb enabled))))
      field_columns;
  Return (None :: entries).

(** [entries[i].get()]; the first element of [entries] is [None]. *)
Definition get (entries : list (option entry)) (i : nat) : attempt pystr :=
  e ← index entries i;
  match e with
  | Some e => Return (text e)
  | None => Throw AttributeError
  end.

(** The loop that opens [InsertBook] and [UpdateBook]: [false] when it
    returns from the handler because a required entry is empty. *)
Fixpoint required (entries : list (option entry)) (columns : list nat)
    : attempt bool :=
  match columns with
  | [] => Return true
  | column :: columns' =>
    t ← get entries column;
    if bool_decide (t = []) then Return false else required entries columns'
  end.

Section Handlers.

Variable decomposition : Z → string.

(** [int] on the text of a cell; [None] stands for [ValueError]. *)
Variable int : pystr → option Z.

(** [InsertBook]: [lastrowid] is what the cursor reports after the first
    statement.  The result is [None] when the handler returns without
    writing; otherwise the statements are followed by [Finalize]. *)
Definition InsertBook (table : gmap Z pyval) (entries : list (option entry))
    (lastrowid : Z)
    : attempt (option (list statement) * gmap Z pyval) :=
  ok ← required entries [Column.SHELF; Column.AUTHOR; Column.TITLE];
  if ok : bool then
    content ← for_each (λ i, t ← get entries i; Return (squeezed t))
                       field_columns;
    '(fts, table') ←
      lift (Application.MakeFtsContent decomposition table (Some <$> content));
    Return (Some [INSERT_INTO_Books content;
                  INSERT_INTO_BooksFTS lastrowid fts], table')
  else Return (None, table).

Definition UpdateBook (table : gmap Z pyval) (entries : list (option entry))
    (item_values : list pystr)
    : attempt (option (list statement) * gmap Z pyval) :=
  ok ← required entries [Column.SHELF; Column.AUTHOR; Column.TITLE];
  if ok : bool then
    cell ← index item_values Column.ID;
    item_id ← match int cell with
              | Some n => Return n
              | None => Throw (Raised ValueError)
              end;
    content ← for_each (get entries) field_columns;
    '(fts, table') ←
      lift (Application.MakeFtsContent decomposition table (Some <$> content));
    Return (Some [UPDATE_Books content item_id;
                  UPDATE_BooksFTS fts item_id], table')
  else Return (None, table).

End Handlers.

(** [tree_view.item(iid, 'values')]: the texts of the cells, as they were
    inserted. *)
Definition tv_item (tv : list Application.item) (iid : nat)
    : attempt (list pystr) :=
  match list_find (λ it, Application.iid it = iid) tv with
  | Some (_, it) => Return (Application.values it)
  | None => Throw (Raised TclError)
  end.


(** The row and the entries of the dialog [Edit] opens; [None] when it
    returns because nothing is selected. *)
Definition Edit (tv : list Application.item) (selection : list nat)
    : attempt (option (list pystr * list (option entry))) :=
  match selection with
  | [] => Return None
  | iid :: _ =>
    item_values ← tv_item tv iid;
    entries ← MakeEntries item_values true;
    Return (Some (item_values, entries))
  end.

End Dialog.

(** The entries of a dialog in which the user has typed [texts], one for
    each column from [SHELF] to [BORROWED]. *)
Definition typed (texts : list pystr) : list (option Dialog.entry) :=
  None :: ((λ t, Some (Dialog.Entry t false)) <$> texts).

(** [int] on a string of at most 4300 ASCII digits, where it reads the
    decimal number; [int] accepts more strings than these. *)
Definition int_digits (s : pystr) : option Z :=
  if bool_decide (s ≠ [] ∧ (length s ≤ 4300)%nat
                  ∧ Forall (λ c, 0x30 ≤ c ≤ 0x39) s)
  then Some (foldl (λ n c, 10 * n + (c - 0x30)) 0 s)
  else None.



(** * Facts *)

(** Splits a conjunction into its parts, without touching the parts. *)
Ltac split_conj :=
  repeat match goal with |- _ ∧ _ => split end.

(** Closes a closed equation by evaluation. *)
Ltac evaluate := vm_compute; reflexivity.

(** ** Python builtins *)

Lemma is_codepointb_spec c : is_codepointb c = true ↔ is_codepoint c.
Proof. unfold is_codepointb, is_codepoint. lia. Qed.

Lemma chr_codepoint c : is_codepoint c → chr c = Ok c.
Proof.
  intros H. unfold chr.
  by destruct (is_codepointb c) eqn:E; [|apply is_codepointb_spec in H; congruence].
Qed.

Example int16_examples :
  int16 (str "0065") = Some 0x65 ∧ int16 (str "00DC") = Some 0xDC
  ∧ int16 (str "1F1E6") = Some 0x1F1E6
  ∧ int16 (str "<compat>") = None
  ∧ int16 (str "") = None
  ∧ int16 (str "0x_1") = Some 1 ∧ int16 (str "1__2") = None
  ∧ int16 (str "1_") = None ∧ int16 (str "_1") = None
  ∧ int16 (str "+0x1f") = Some 31 ∧ int16 (str "-0") = Some 0
  ∧ int16 (str "0x") = None ∧ int16 (str "1 2") = None
  ∧ int16 (str " 1 ") = Some 1 ∧ int16 (str "00x1") = None
  ∧ int16 (str "0_x1") = None ∧ int16 (str "g") = None
  ∧ int16 (str "-_1") = None ∧ int16 (str "1_2") = Some 18.
Proof. split_conj; reflexivity. Qed.

Example split_examples :
  str_split (str "Jane  Doe") = [str "Jane"; str "Doe"]
  ∧ str_split (str "   ") = []
  ∧ str_split (str "") = []
  ∧ split_whitespace 1 (str "<compat> 0020 0301")
    = [str "<compat>"; str "0020 0301"]
  ∧ split_whitespace 1 (str " ") = [].
Proof. split_conj; reflexivity. Qed.

Lemma str_app a b : str (a ++ b) = str a ++ str b.
Proof. induction a as [|x a IH]; simpl; [done | by rewrite IH]. Qed.

(** ** The translation table *)

Section TableFacts.

Variable decomposition : Z → string.

Local Abbreviation resolve := (UnaccentedMap.resolve decomposition).
Local Abbreviation Fold := (UnaccentedMap.Fold decomposition).
Local Abbreviation FoldText := (UnaccentedMap.FoldText decomposition).
Local Abbreviation __getitem__ := (UnaccentedMap.__getitem__ decomposition).
Local Abbreviation __missing__ := (UnaccentedMap.__missing__ decomposition).
Local Abbreviation str_translate := (UnaccentedMap.str_translate decomposition).

Lemma cached_empty : cached decomposition ∅.
Proof. intros k v H. by rewrite lookup_empty in H. Qed.

Lemma cached_insert table key :
  cached decomposition table →
  cached decomposition (<[key := resolve key]> table).
Proof.
  intros Hc k v. rewrite lookup_insert. case_decide; [|by apply Hc].
  intros [= <-]. by subst.
Qed.

Lemma cached_filled table s :
  cached decomposition table → cached decomposition (filled decomposition table s).
Proof.
  revert table. induction s as [|c s IH]; intros table Hc; [done|].
  apply IH. by apply cached_insert.
Qed.

(** A lookup never raises for a codepoint: it yields the resolved value
    and leaves it in the dict. *)
Lemma getitem_resolve table key :
  cached decomposition table → is_codepoint key →
  __getitem__ table key = Ok (resolve key, <[key := resolve key]> table).
Proof.
  intros Hc Hk. unfold UnaccentedMap.__getitem__, UnaccentedMap.__missing__.
  destruct (table !! key) as [v|] eqn:E.
  - rewrite (Hc _ _ E) in E |- *. by rewrite insert_id.
  - by rewrite chr_codepoint.
Qed.

Lemma FoldText_cons c s : FoldText (c :: s) = Fold c ++ FoldText s.
Proof. done. Qed.

Lemma FoldText_app s t : FoldText (s ++ t) = FoldText s ++ FoldText t.
Proof. unfold UnaccentedMap.FoldText. apply bind_app. Qed.

(** Characters that fold to themselves are copied. *)
Lemma FoldText_fixed s : Forall (λ c, Fold c = [c]) s → FoldText s = s.
Proof.
  induction 1 as [|c s Hc _ IH]; [done|].
  by rewrite FoldText_cons, Hc, IH.
Qed.

Section Codepoints.

Hypothesis table_ok : codepoints_only decomposition.

Lemma resolve_codepoint key n :
  is_codepoint key → resolve key = PyInt n → is_codepoint n.
Proof.
  intros Hk. unfold UnaccentedMap.resolve. case_bool_decide.
  - destruct (UnaccentedMap.first_component _) as [m|] eqn:E.
    + intros [= <-]. by eapply table_ok.
    + by intros [= <-].
  - destruct (UnaccentedMap.CHAR_REPLACEMENT !! key); [done|].
    by intros [= <-].
Qed.

Lemma replacement_resolve key :
  is_codepoint key →
  UnaccentedMap.replacement (resolve key) = Ok (Fold key).
Proof.
  intros Hk. unfold UnaccentedMap.Fold.
  destruct (resolve key) as [n|s] eqn:E; [|done]. simpl.
  apply resolve_codepoint in E; [|done].
  apply is_codepointb_spec in E. by rewrite E.
Qed.

(** [s.translate(UNACCENTED)] returns the folded text whatever the dict
    already holds, and leaves the dict filled with the characters
    of [s]. *)
Lemma str_translate_FoldText table s :
  cached decomposition table → is_str s →
  str_translate table s = Ok (FoldText s, filled decomposition table s).
Proof.
  intros Hc Hs. revert table Hc.
  induction Hs as [|c s Hk _ IH]; intros table Hc; [done|].
  cbn [UnaccentedMap.str_translate].
  rewrite getitem_resolve by done. cbn.
  rewrite replacement_resolve by done. cbn.
  rewrite IH by (by apply cached_insert). done.
Qed.

End Codepoints.

End TableFacts.



Lemma CHAR_REPLACEMENT_is_str key s :
  UnaccentedMap.CHAR_REPLACEMENT !! key = Some s → is_str s.
Proof.
  intros H. apply elem_of_map_to_list, list_elem_of_In in H.
  assert (Hall : forallb (λ e : Z * pystr, forallb is_codepointb e.2)
            (map_to_list UnaccentedMap.CHAR_REPLACEMENT) = true)
    by (vm_compute; reflexivity).
  rewrite forallb_forall in Hall. specialize (Hall _ H). simpl in Hall.
  rewrite forallb_forall in Hall. apply Forall_forall. intros c Hc.
  apply is_codepointb_spec, Hall. by apply list_elem_of_In.
Qed.

Lemma Fold_is_str decomposition key :
  codepoints_only decomposition → is_codepoint key →
  is_str (UnaccentedMap.Fold decomposition key).
Proof.
  intros Hok Hk. unfold UnaccentedMap.Fold.
  destruct (UnaccentedMap.resolve decomposition key) as [n|t] eqn:E; simpl.
  - apply Forall_singleton. by eapply resolve_codepoint.
  - revert E. unfold UnaccentedMap.resolve. case_bool_decide.
    + by destruct (UnaccentedMap.first_component _).
    + destruct (UnaccentedMap.CHAR_REPLACEMENT !! key) eqn:E; [|done].
      intros [= <-]. by eapply CHAR_REPLACEMENT_is_str.
Qed.

Lemma FoldText_is_str decomposition s :
  codepoints_only decomposition → is_str s →
  is_str (UnaccentedMap.FoldText decomposition s).
Proof.
  intros Hok. induction 1 as [|c s Hc _ IH]; [constructor|].
  rewrite FoldText_cons. apply Forall_app. split; [by apply Fold_is_str|done].
Qed.

(** The entries of [unicode_data] name codepoints only. *)
Lemma unicode_data_codepoints : codepoints_only unicodedata_decomposition.
Proof.
  intros key n _. unfold unicodedata_decomposition.
  destruct (list_to_map unicode_data !! key) as [d|] eqn:E; [|done].
  apply elem_of_list_to_map_2 in E. simpl.
  assert (Hall : forallb (λ e : Z * string,
            match UnaccentedMap.first_component (str e.2) with
            | Some m => is_codepointb m
            | None => true
            end) unicode_data = true) by (vm_compute; reflexivity).
  rewrite forallb_forall in Hall. apply list_elem_of_In in E.
  specialize (Hall _ E). simpl in Hall. intros Hn. rewrite Hn in Hall.
  by apply is_codepointb_spec.
Qed.

(** ** Resolution of one codepoint *)




(** With the Unicode data, the override table is never shadowed: none of its
    codepoints has a decomposition, so each folds to its entry. *)
Lemma overrides_apply key s :
  UnaccentedMap.CHAR_REPLACEMENT !! key = Some s →
  unicodedata_decomposition key = ""%string
  ∧ UnaccentedMap.Fold unicodedata_decomposition key = s.
Proof.
  intros H. apply elem_of_map_to_list, list_elem_of_In in H.
  assert (Hall : forallb (λ e : Z * pystr,
            bool_decide (unicodedata_decomposition e.1 = ""%string
              ∧ UnaccentedMap.Fold unicodedata_decomposition e.1 = e.2))
            (map_to_list UnaccentedMap.CHAR_REPLACEMENT) = true)
    by (vm_compute; reflexivity).
  rewrite forallb_forall in Hall. specialize (Hall _ H).
  by apply bool_decide_eq_true in Hall.
Qed.




(** ** Folding a text *)




(** With the Unicode data, text of the blocks Basic Latin, Latin-1
    Supplement and Latin Extended-A is of that kind: a second translation
    changes nothing there. *)
Lemma Fold_latin_fixed c :
  0 <= c < 0x180 →
  Forall (λ d, UnaccentedMap.Fold unicodedata_decomposition d = [d])
         (UnaccentedMap.Fold unicodedata_decomposition c).
Proof.
  intros Hc.
  assert (Hall : forallb (λ c : Z,
            bool_decide
              (Forall (λ d, UnaccentedMap.Fold unicodedata_decomposition d
                            = [d])
                      (UnaccentedMap.Fold unicodedata_decomposition c)))
            (seqZ 0 0x180) = true) by evaluate.
  rewrite forallb_forall in Hall. apply (bool_decide_eq_true_1 _), Hall.
  apply list_elem_of_In, elem_of_seqZ. lia.
Qed.

Lemma FoldText_idempotent_latin table s :
  cached unicodedata_decomposition table →
  Forall (λ c, 0 <= c < 0x180) s →
  ∃ out table1 table2,
    UnaccentedMap.str_translate unicodedata_decomposition table s
      = Ok (out, table1)
    ∧ UnaccentedMap.str_translate unicodedata_decomposition table1 out
      = Ok (out, table2).
Proof.
  intros Hc Hs.
  assert (Hstr : is_str s).
  { eapply Forall_impl; [exact Hs|]. unfold is_codepoint. intros c ?. lia. }
  assert (Hfix : Forall
            (λ d, UnaccentedMap.Fold unicodedata_decomposition d = [d])
            (UnaccentedMap.FoldText unicodedata_decomposition s)).
  { apply Forall_bind. eapply Forall_impl; [exact Hs|].
    intros c. apply Fold_latin_fixed. }
  eexists _, _, _. split.
  - by apply str_translate_FoldText, Hstr; [apply unicode_data_codepoints|].
  - rewrite str_translate_FoldText;
      auto using unicode_data_codepoints, cached_filled, FoldText_is_str.
    by rewrite (FoldText_fixed _ _ Hfix).
Qed.

(** C7: the dict maps U+00C6 to [AE], U+00DF to [ss], U+00E9 to [e] and
    [a] to [a], and translating the four characters in a row writes these
    replacements one after the other. *)
Theorem known_mappings :
  UnaccentedMap.Fold unicodedata_decomposition 0xC6 = str "AE"
  ∧ UnaccentedMap.Fold unicodedata_decomposition 0xDF = str "ss"
  ∧ UnaccentedMap.Fold unicodedata_decomposition 0xE9 = str "e"
  ∧ UnaccentedMap.Fold unicodedata_decomposition 0x61 = str "a"
  ∧ UnaccentedMap.__getitem__ unicodedata_decomposition ∅ 0xC6
    = Ok (PyStr (str "AE"), {[ 0xC6 := PyStr (str "AE") ]})
  ∧ UnaccentedMap.__getitem__ unicodedata_decomposition ∅ 0xDF
    = Ok (PyStr (str "ss"), {[ 0xDF := PyStr (str "ss") ]})
  ∧ UnaccentedMap.__getitem__ unicodedata_decomposition ∅ 0xE9
    = Ok (PyInt 0x65, {[ 0xE9 := PyInt 0x65 ]})
  ∧ UnaccentedMap.__getitem__ unicodedata_decomposition ∅ 0x61
    = Ok (PyInt 0x61, {[ 0x61 := PyInt 0x61 ]})
  ∧ UnaccentedMap.str_translate unicodedata_decomposition ∅
      [0xC6; 0xDF; 0xE9; 0x61]
    = Ok (str "AEssea",
          filled unicodedata_decomposition ∅ [0xC6; 0xDF; 0xE9; 0x61]).
Proof. split_conj; evaluate. Qed.




(** ** Splitting and joining *)

Lemma drop_while_length {A} (p : A → bool) l :
  (length (drop_while p l) ≤ length l)%nat.
Proof. induction l as [|x l IH]; simpl; [lia|]. destruct (p x); simpl; lia. Qed.

Lemma drop_while_head {A} (p : A → bool) l x r :
  drop_while p l = x :: r → p x = false.
Proof.
  induction l as [|y l IH]; simpl; [done|].
  destruct (p y) eqn:E; [done|]. by intros [= <- _].
Qed.

Lemma drop_while_all {A} (p : A → bool) l :
  Forall (λ x, p x = true) l → drop_while p l = [].
Proof. induction 1 as [|x l Hx _ IH]; simpl; [done|]. by rewrite Hx. Qed.

(** The first piece is the run of characters before the first separator;
    the other pieces are those of what follows that separator. *)
Lemma pieces_unfold s :
  pieces s
  = take_while (λ x, negb (isspace x)) s
      :: match drop_while (λ x, negb (isspace x)) s with
         | [] => []
         | _ :: r => pieces r
         end.
Proof.
  induction s as [|c s IH]; simpl; [done|].
  destruct (isspace c); simpl; [done|]. by rewrite IH.
Qed.

Lemma tokens_nil : tokens [] = [].
Proof. done. Qed.

Lemma tokens_space c s : isspace c = true → tokens (c :: s) = tokens s.
Proof. intros H. unfold tokens. simpl. by rewrite H. Qed.

Lemma tokens_drop_space s : tokens (drop_while isspace s) = tokens s.
Proof.
  induction s as [|c s IH]; simpl; [done|].
  destruct (isspace c) eqn:E; [by rewrite tokens_space|done].
Qed.

Lemma tokens_word c s :
  isspace c = false →
  tokens (c :: s)
  = (c :: take_while (λ x, negb (isspace x)) s)
      :: tokens (drop_while (λ x, negb (isspace x)) s).
Proof.
  intros H. unfold tokens at 1. rewrite pieces_unfold. simpl. rewrite H. simpl.
  rewrite filter_cons_True by done. f_equal.
  destruct (drop_while _ s) as [|x r] eqn:E; [done|].
  apply drop_while_head in E. apply negb_false_iff in E.
  by rewrite tokens_space.
Qed.

Lemma split_whitespace_tokens n s :
  (length s ≤ n)%nat → split_whitespace n s = tokens s.
Proof.
  revert s. induction n as [|n IH]; intros s Hn.
  - destruct s; [done|simpl in Hn; lia].
  - rewrite <-tokens_drop_space. simpl.
    pose proof (drop_while_length isspace s) as Hlen.
    destruct (drop_while isspace s) as [|c s'] eqn:E; [done|].
    rewrite tokens_word by (by eapply drop_while_head).
    rewrite IH; [done|].
    pose proof (drop_while_length (λ x, negb (isspace x)) s').
    simpl in Hlen. lia.
Qed.

(** [raw.split()] yields the pieces between whitespace characters that are
    not empty, in order. *)
Lemma str_split_tokens s : str_split s = tokens s.
Proof. by apply split_whitespace_tokens. Qed.

(** The tokens are the maximal runs of characters that are not whitespace:
    none is empty, none holds whitespace, and together they are the string
    without its whitespace. *)
Lemma pieces_no_space s :
  Forall (Forall (λ c, isspace c = false)) (pieces s).
Proof.
  induction s as [|c s IH]; simpl; [by repeat constructor|].
  destruct (isspace c) eqn:E; [by constructor|].
  destruct (pieces s) as [|p ps]; [by repeat constructor|].
  apply Forall_cons in IH as [Hp Hps].
  apply Forall_cons; split; [by apply Forall_cons|done].
Qed.

Lemma pieces_concat s :
  concat (pieces s) = filter (λ c, isspace c = false) s.
Proof.
  induction s as [|c s IH]; simpl; [done|].
  destruct (isspace c) eqn:E; simpl.
  - by rewrite filter_cons_False by congruence.
  - rewrite filter_cons_True by done. rewrite <-IH.
    by destruct (pieces s).
Qed.

Lemma tokens_words s :
  Forall (λ t, t ≠ [] ∧ Forall (λ c, isspace c = false) t) (tokens s)
  ∧ concat (tokens s) = filter (λ c, isspace c = false) s.
Proof.
  unfold tokens. split.
  - apply Forall_forall. intros t [Ht Hin]%list_elem_of_filter.
    split; [done|].
    by eapply (proj1 (Forall_forall _ _) (pieces_no_space s)).
  - rewrite <-pieces_concat.
    induction (pieces s) as [|[|c p] ps IH]; [done|..].
    + by rewrite filter_cons_False by (by intros []).
    + rewrite filter_cons_True by done. simpl. by rewrite IH.
Qed.

Lemma Forall_filter_keep {A} (P Q : A → Prop) `{!∀ x, Decision (Q x)} l :
  Forall P l → Forall P (filter Q l).
Proof.
  rewrite !Forall_forall. intros Hl x [_ Hx]%list_elem_of_filter. by apply Hl.
Qed.

Lemma pieces_is_str s : is_str s → Forall is_str (pieces s).
Proof.
  induction 1 as [|c s Hc _ IH]; simpl.
  { apply Forall_singleton. constructor. }
  destruct (isspace c); [apply Forall_cons; split; [constructor|done]|].
  destruct (pieces s) as [|p ps].
  { by apply Forall_singleton, Forall_singleton. }
  apply Forall_cons in IH as [Hp Hps].
  apply Forall_cons; split; [by apply Forall_cons|done].
Qed.

Lemma tokens_is_str s : is_str s → Forall is_str (tokens s).
Proof. intros H. by apply Forall_filter_keep, pieces_is_str. Qed.

Lemma str_join_is_str sep l :
  is_str sep → Forall is_str l → is_str (str_join sep l).
Proof.
  intros Hsep. induction 1 as [|s l Hs Hl IH]; simpl; [constructor|].
  destruct l; [done|]. by repeat (apply Forall_app; split).
Qed.

Lemma str_is_str s : is_str (str s).
Proof.
  induction s as [|a s IH]; simpl; constructor; [|done].
  unfold is_codepoint. pose proof (N_ascii_bounded a). lia.
Qed.

(** ** The search pattern and the indexed content *)

Lemma wildcards_is_str raw :
  is_str raw →
  is_str (str_join (str " ") ((λ t, t ++ str "*") <$> tokens raw)).
Proof.
  intros H. apply str_join_is_str; [apply str_is_str|].
  apply Forall_fmap. eapply Forall_impl; [by apply tokens_is_str|].
  intros t Ht. apply Forall_app. split; [done|apply str_is_str].
Qed.

Lemma search_pattern_FoldText decomposition table raw :
  codepoints_only decomposition → cached decomposition table → is_str raw →
  Application.search_pattern decomposition table raw
  = Ok (UnaccentedMap.FoldText decomposition
          (str_join (str " ") ((λ t, t ++ str "*") <$> tokens raw)),
        filled decomposition table
          (str_join (str " ") ((λ t, t ++ str "*") <$> tokens raw))).
Proof.
  intros Hok Hc Hraw. unfold Application.search_pattern.
  rewrite str_split_tokens.
  by apply str_translate_FoldText, wildcards_is_str.
Qed.

(** C4: the search pattern of a raw string is the folded text of the
    expression made of its whitespace-separated tokens, empty ones
    discarded, each followed by [*] and joined by single spaces; the
    pattern of [Jane  Doe] is the folded text of [Jane* Doe*]. *)
Theorem search_pattern_wildcards (decomposition : Z → string)
    (table : gmap Z pyval) (raw : pystr) :
  codepoints_only decomposition → cached decomposition table → is_str raw →
  let expression :=
    str_join (str " ") ((λ t, t ++ str "*") <$> tokens raw) in
  Application.search_pattern decomposition table raw
    = Ok (UnaccentedMap.FoldText decomposition expression,
          filled decomposition table expression)
  ∧ Application.search_pattern decomposition table (str "Jane  Doe")
    = Ok (UnaccentedMap.FoldText decomposition (str "Jane* Doe*"),
          filled decomposition table (str "Jane* Doe*")).
Proof.
  intros Hok Hc Hraw expression. split.
  - by apply search_pattern_FoldText.
  - by rewrite search_pattern_FoldText by (done || apply str_is_str).
Qed.

Lemma search_pattern_wildcards_witness :
  Application.search_pattern unicodedata_decomposition ∅
      [0xC9; 0x09; 0x20; 0x61]
    = Ok (UnaccentedMap.FoldText unicodedata_decomposition
            [0xC9; 0x2A; 0x20; 0x61; 0x2A],
          filled unicodedata_decomposition ∅ [0xC9; 0x2A; 0x20; 0x61; 0x2A])
  ∧ Application.search_pattern unicodedata_decomposition ∅ (str "Jane  Doe")
    = Ok (UnaccentedMap.FoldText unicodedata_decomposition (str "Jane* Doe*"),
          filled unicodedata_decomposition ∅ (str "Jane* Doe*")).
Proof.
  apply (search_pattern_wildcards unicodedata_decomposition ∅
           [0xC9; 0x09; 0x20; 0x61]).
  - apply unicode_data_codepoints.
  - apply cached_empty.
  - unfold is_str, is_codepoint. repeat constructor; lia.
Defined.

(** C8: for the empty string and for a string of whitespace only there is
    no token, and the search pattern is the empty string; the dict is not
    consulted. *)
Theorem search_pattern_blank (decomposition : Z → string)
    (table : gmap Z pyval) (raw : pystr) :
  Forall (λ c, isspace c = true) raw →
  str_split raw = []
  ∧ Application.search_pattern decomposition table raw = Ok ([], table).
Proof.
  intros Hraw.
  assert (Hsplit : str_split raw = []).
  { unfold str_split. generalize (length raw). intros n.
    destruct n; simpl; by rewrite drop_while_all. }
  split; [done|]. unfold Application.search_pattern. by rewrite Hsplit.
Qed.

Lemma search_pattern_blank_witness :
  (str_split (str "") = []
   ∧ Application.search_pattern unicodedata_decomposition ∅ (str "")
     = Ok ([], ∅))
  ∧ (str_split (str "   ") = []
     ∧ Application.search_pattern unicodedata_decomposition ∅ (str "   ")
       = Ok ([], ∅)).
Proof.
  split.
  - apply (search_pattern_blank unicodedata_decomposition ∅ (str "")).
    constructor.
  - apply (search_pattern_blank unicodedata_decomposition ∅ (str "   ")).
    repeat constructor.
Defined.

Lemma omap_kept (fields : list (option pystr)) :
  omap (λ x : option pystr,
          match x with Some (c :: s) => Some (c :: s) | _ => None end) fields
  = kept fields.
Proof.
  unfold kept. induction fields as [|[[|c s]|] fields IH]; simpl; [done|..].
  - rewrite filter_cons_False by (by intros []). apply IH.
  - rewrite filter_cons_True by done. f_equal. apply IH.
  - rewrite filter_cons_False by (by intros []). apply IH.
Qed.

Lemma kept_is_str fields :
  Forall (λ f, from_option is_str True f) fields → Forall is_str (kept fields).
Proof.
  intros H. apply Forall_filter_keep, Forall_fmap.
  eapply Forall_impl; [exact H|]. intros [f|]; simpl; [done|constructor].
Qed.

(** C5: the indexed content of a record is the folded text of its author,
    title, translator and original title, in this order and without the
    empty or absent ones, joined by single spaces; for the fields [Lem],
    [Solaris], the empty string and [Original] it is the folded text of
    [Lem Solaris Original]. A search pattern built afterwards is folded by
    the same function, on the dict the content left. *)
Theorem MakeFtsContent_folds_fields (decomposition : Z → string)
    (table : gmap Z pyval)
    (shelf author title translator original_title borrowed : option pystr) :
  codepoints_only decomposition → cached decomposition table →
  Forall (λ f, from_option is_str True f)
         [author; title; translator; original_title] →
  let joined :=
    str_join (str " ") (kept [author; title; translator; original_title]) in
  Application.MakeFtsContent decomposition table
      [shelf; author; title; translator; original_title; borrowed]
    = Ok (UnaccentedMap.FoldText decomposition joined,
          filled decomposition table joined)
  ∧ Application.MakeFtsContent decomposition table
      [shelf; Some (str "Lem"); Some (str "Solaris"); Some (str "");
       Some (str "Original"); borrowed]
    = Ok (UnaccentedMap.FoldText decomposition (str "Lem Solaris Original"),
          filled decomposition table (str "Lem Solaris Original"))
  ∧ ∀ raw, is_str raw →
      ∃ table',
        Application.search_pattern decomposition
          (filled decomposition table joined) raw
        = Ok (UnaccentedMap.FoldText decomposition
                (str_join (str " ") ((λ t, t ++ str "*") <$> tokens raw)),
              table').
Proof.
  intros Hok Hc Hfields joined.
  assert (Hgen : ∀ a t tr o : option pystr,
            Forall (λ f, from_option is_str True f) [a; t; tr; o] →
            Application.MakeFtsContent decomposition table
              [shelf; a; t; tr; o; borrowed]
            = Ok (UnaccentedMap.FoldText decomposition
                    (str_join (str " ") (kept [a; t; tr; o])),
                  filled decomposition table
                    (str_join (str " ") (kept [a; t; tr; o])))).
  { intros a t tr o H. unfold Application.MakeFtsContent.
    change (Application.slice _ _ _) with [a; t; tr; o].
    rewrite omap_kept. apply str_translate_FoldText; [done..|].
    apply str_join_is_str; [apply str_is_str|by apply kept_is_str]. }
  split; [by apply Hgen|]. split.
  - rewrite Hgen; [done|].
    repeat (apply Forall_cons; split; [apply str_is_str|]). apply Forall_nil_2.
  - intros raw Hraw. eexists.
    apply search_pattern_FoldText; [done| |done]. by apply cached_filled.
Qed.

Lemma MakeFtsContent_folds_fields_witness :
  Application.MakeFtsContent unicodedata_decomposition ∅
      [Some (str "A3"); Some [0x4C; 0x65; 0x6D]; None; Some [];
       Some [0xC9; 0x64; 0x65; 0x6E]; None]
    = Ok (UnaccentedMap.FoldText unicodedata_decomposition
            [0x4C; 0x65; 0x6D; 0x20; 0xC9; 0x64; 0x65; 0x6E],
          filled unicodedata_decomposition ∅
            [0x4C; 0x65; 0x6D; 0x20; 0xC9; 0x64; 0x65; 0x6E])
  ∧ Application.MakeFtsContent unicodedata_decomposition ∅
      [Some (str "A3"); Some (str "Lem"); Some (str "Solaris");
       Some (str ""); Some (str "Original"); None]
    = Ok (UnaccentedMap.FoldText unicodedata_decomposition
            (str "Lem Solaris Original"),
          filled unicodedata_decomposition ∅ (str "Lem Solaris Original"))
  ∧ ∀ raw, is_str raw →
      ∃ table',
        Application.search_pattern unicodedata_decomposition
          (filled unicodedata_decomposition ∅
             [0x4C; 0x65; 0x6D; 0x20; 0xC9; 0x64; 0x65; 0x6E]) raw
        = Ok (UnaccentedMap.FoldText unicodedata_decomposition
                (str_join (str " ") ((λ t, t ++ str "*") <$> tokens raw)),
              table').
Proof.
  apply (MakeFtsContent_folds_fields unicodedata_decomposition ∅
           (Some (str "A3")) (Some [0x4C; 0x65; 0x6D]) None (Some [])
           (Some [0xC9; 0x64; 0x65; 0x6E]) None).
  - apply unicode_data_codepoints.
  - apply cached_empty.
  - repeat (apply Forall_cons; split;
              [first [exact I | apply str_is_str
                     | unfold is_codepoint; repeat constructor; lia]|]).
    apply Forall_nil_2.
Defined.

(** ** Ordering of strings *)

Lemma str_lt_irrefl a : str_lt a a = false.
Proof.
  induction a as [|x a IH]; simpl; [done|].
  rewrite IH, Z.ltb_irrefl. by rewrite andb_false_r.
Qed.

Lemma str_lt_cons x a y b :
  str_lt (x :: a) (y :: b) = true ↔ x < y ∨ (x = y ∧ str_lt a b = true).
Proof.
  simpl. rewrite orb_true_iff, andb_true_iff, Z.ltb_lt, Z.eqb_eq. tauto.
Qed.

Lemma str_lt_asym a b : str_lt a b = true → str_lt b a = false.
Proof.
  revert b. induction a as [|x a IH]; intros [|y b]; try done.
  rewrite str_lt_cons. intros H. apply not_true_iff_false.
  rewrite str_lt_cons. intros H'.
  destruct H as [?|[-> H]], H' as [?|[? H']]; try lia.
  apply IH in H. congruence.
Qed.

Lemma str_lt_total a b : str_lt a b = false → str_lt b a = false → a = b.
Proof.
  revert b. induction a as [|x a IH]; intros [|y b]; try done.
  rewrite <-!not_true_iff_false, !str_lt_cons. intros H H'.
  assert (x = y) as -> by lia. f_equal. apply IH.
  - apply not_true_iff_false. tauto.
  - apply not_true_iff_false. tauto.
Qed.

Lemma str_lt_trans a b c :
  str_lt a b = true → str_lt b c = true → str_lt a c = true.
Proof.
  revert b c. induction a as [|x a IH]; intros [|y b] [|z c]; try done.
  rewrite !str_lt_cons. intros [?|[-> H]] [?|[? H']]; try (left; lia).
  subst. right. split; [done|]. by eapply IH.
Qed.

(** "Not above" is transitive: the order of keys is a total one. *)
Lemma str_le_trans a b c :
  str_lt b a = false → str_lt c b = false → str_lt c a = false.
Proof.
  intros Hab Hbc. apply not_true_iff_false. intros Hca.
  destruct (str_lt a b) eqn:E1.
  - pose proof (str_lt_trans _ _ _ Hca E1). congruence.
  - pose proof (str_lt_total _ _ E1 Hab). subst. congruence.
Qed.

(** ** [list.sort] *)

Section SortFacts.

Context {A K : Type} (key : A → K) (lt : K → K → bool).

Hypothesis lt_asym : ∀ a b, lt a b = true → lt b a = false.

Hypothesis le_trans :
  ∀ a b c, lt b a = false → lt c b = false → lt c a = false.

Local Abbreviation le := (key_le key lt).
Local Abbreviation insert := (sort_insert key lt).
Local Abbreviation sort := (stable_sort key lt).

Lemma sort_insert_Permutation x l : insert x l ≡ₚ x :: l.
Proof.
  induction l as [|y l IH]; simpl; [done|].
  destruct (lt (key y) (key x)); [|done].
  rewrite IH. apply Permutation_swap.
Qed.

Lemma stable_sort_Permutation l : sort l ≡ₚ l.
Proof.
  induction l as [|x l IH]; simpl; [done|].
  by rewrite sort_insert_Permutation, IH.
Qed.

Lemma sort_insert_HdRel x y l :
  le y x → HdRel le y l → HdRel le y (insert x l).
Proof.
  intros Hyx [|z l' Hyz]; simpl; [by constructor|].
  destruct (lt (key z) (key x)); by constructor.
Qed.

Lemma sort_insert_Sorted x l : Sorted le l → Sorted le (insert x l).
Proof.
  induction 1 as [|y l Hl IH Hhd]; simpl; [by repeat constructor|].
  destruct (lt (key y) (key x)) eqn:E.
  - constructor; [done|]. apply sort_insert_HdRel; [|done].
    by apply lt_asym.
  - by repeat constructor.
Qed.

Lemma stable_sort_Sorted l : Sorted le (sort l).
Proof.
  induction l as [|x l IH]; simpl; [constructor|].
  by apply sort_insert_Sorted.
Qed.

(** Insertion moves [x] only past elements with a smaller key, so the
    elements of any one key class keep their order. *)
Lemma sort_insert_filter k x l :
  filter (same_key key lt k) (insert x l)
  = filter (same_key key lt k) (x :: l).
Proof.
  induction l as [|y l IH]; simpl; [done|].
  destruct (lt (key y) (key x)) eqn:E; [|done].
  rewrite filter_cons, IH, !filter_cons.
  destruct (decide (same_key key lt k y)) as [Hy|Hy];
    destruct (decide (same_key key lt k x)) as [Hx|Hx]; try done.
  exfalso. unfold same_key in Hx, Hy.
  apply Is_true_true, andb_true_iff in Hx as [Hx1 Hx2].
  apply Is_true_true, andb_true_iff in Hy as [Hy1 Hy2].
  apply negb_true_iff in Hx1, Hx2, Hy1, Hy2.
  pose proof (le_trans _ _ _ Hx2 Hy1). congruence.
Qed.

Lemma stable_sort_filter k l :
  filter (same_key key lt k) (sort l) = filter (same_key key lt k) l.
Proof.
  induction l as [|x l IH]; simpl; [done|].
  by rewrite sort_insert_filter, !filter_cons, IH.
Qed.

Lemma list_sort_Permutation (descending : bool) l : list_sort key lt descending l ≡ₚ l.
Proof.
  destruct descending; simpl; [|apply stable_sort_Permutation].
  by rewrite reverse_Permutation, stable_sort_Permutation,
    reverse_Permutation.
Qed.

Lemma list_sort_Sorted (descending : bool) l :
  Sorted (if descending then flip le else le) (list_sort key lt descending l).
Proof.
  destruct descending; simpl; [|apply stable_sort_Sorted].
  apply Sorted_reverse, stable_sort_Sorted.
Qed.

(** Stability, in both directions. *)
Lemma list_sort_filter (descending : bool) k l :
  filter (same_key key lt k) (list_sort key lt descending l)
  = filter (same_key key lt k) l.
Proof.
  destruct descending; simpl; [|apply stable_sort_filter].
  by rewrite filter_reverse, stable_sort_filter, filter_reverse,
    reverse_involutive.
Qed.

End SortFacts.

(** Sorting the images of a list sorts the list. *)
Lemma sort_insert_fmap {A B K} (f : A → B) (key : B → K) lt x l :
  sort_insert key lt (f x) (f <$> l)
  = f <$> sort_insert (λ a, key (f a)) lt x l.
Proof.
  induction l as [|y l IH]; simpl; [done|].
  destruct (lt (key (f y)) (key (f x))); [|done].
  rewrite fmap_cons. f_equal. apply IH.
Qed.

Lemma stable_sort_fmap {A B K} (f : A → B) (key : B → K) lt l :
  stable_sort key lt (f <$> l) = f <$> stable_sort (λ a, key (f a)) lt l.
Proof.
  unfold stable_sort. induction l as [|x l IH]; [done|].
  rewrite fmap_cons. cbn [foldr]. rewrite IH. apply sort_insert_fmap.
Qed.

Lemma list_sort_fmap {A B K} (f : A → B) (key : B → K) lt
    (descending : bool) l :
  list_sort key lt descending (f <$> l)
  = f <$> list_sort (λ a, key (f a)) lt descending l.
Proof.
  destruct descending; simpl; [|apply stable_sort_fmap].
  by rewrite <-fmap_reverse, stable_sort_fmap, fmap_reverse.
Qed.

(** ** Moving the children of the tree view *)

Lemma list_find_iid (l1 l2 : list Application.item) x :
  NoDup (Application.iid <$> (l1 ++ x :: l2)) →
  list_find (λ it, Application.iid it = Application.iid x) (l1 ++ x :: l2)
  = Some (length l1, x).
Proof.
  intros Hnd. apply list_find_Some. split; [|split].
  - by apply list_lookup_middle.
  - done.
  - intros j y Hy Hj Heq.
    rewrite lookup_app_l in Hy by done.
    rewrite fmap_app, fmap_cons in Hnd.
    apply NoDup_app in Hnd as (_ & Hnd & _).
    apply (Hnd (Application.iid x)).
    + rewrite <-Heq. apply list_elem_of_fmap_2. by eapply list_elem_of_lookup_2.
    + left.
Qed.

(** An item that sits after the first [length front] children is moved to
    index [length front] without disturbing the others. *)
Lemma tv_move_middle (front l1 l2 : list Application.item) x :
  NoDup (Application.iid <$> (front ++ l1 ++ x :: l2)) →
  Application.tv_move (Application.iid x) (length front)
    (front ++ l1 ++ x :: l2)
  = Ok (front ++ x :: l1 ++ l2).
Proof.
  intros Hnd. unfold Application.tv_move.
  rewrite (assoc_L (++)) in Hnd |- *.
  rewrite list_find_iid by done. rewrite delete_middle.
  rewrite <-(assoc_L (++)).
  by rewrite take_app_length, drop_app_length.
Qed.

(** The loop of [SortBy] leaves the children in the order of [data]. *)
Lemma move_all_order (f : Application.item → pystr)
    (target front rest : list Application.item) :
  NoDup (Application.iid <$> (front ++ target)) → rest ≡ₚ target →
  Application.move_all ((λ child, (f child, Application.iid child)) <$> target)
    (length front) (front ++ rest)
  = Ok (front ++ target).
Proof.
  revert front rest. induction target as [|x target IH]; intros front rest.
  - intros _ Hrest. apply Permutation_nil_r in Hrest. by subst.
  - intros Hnd Hrest. cbn [fmap list_fmap Application.move_all snd].
    assert (Hx : x ∈ rest) by (rewrite Hrest; left).
    apply list_elem_of_split in Hx as (l1 & l2 & ->).
    rewrite <-Permutation_middle in Hrest.
    apply Permutation_cons_inv in Hrest.
    rewrite tv_move_middle.
    + cbn.
      replace (front ++ x :: l1 ++ l2) with ((front ++ [x]) ++ l1 ++ l2)
        by (by rewrite <-(assoc_L (++))).
      replace (front ++ x :: target) with ((front ++ [x]) ++ target)
        by (by rewrite <-(assoc_L (++))).
      replace (S (length front)) with (length (front ++ [x]))
        by (rewrite length_app; simpl; lia).
      apply IH; [|done]. by rewrite <-(assoc_L (++)).
    + eapply NoDup_Permutation_proper; [|exact Hnd].
      apply fmap_Permutation. apply Permutation_app_head.
      by rewrite <-Permutation_middle, Hrest.
Qed.

(** ** [SortBy] *)

(** [SortBy] leaves the children sorted by the key of the column, and
    records the column, the direction and the command of the heading. *)
Lemma SortBy_sorted_view strxfrm self column (reverse : bool) j :
  Application.column_index column = Ok j →
  NoDup (Application.iid <$> Application.tree_view self) →
  Application.SortBy strxfrm self column reverse
  = Ok (Application.State (Application.connection self)
          (Application.UNACCENTED self) (Application.search_var self)
          (Application.last_search_var self)
          (list_sort (λ child, strxfrm (Application.tv_set child j)) str_lt
             reverse (Application.tree_view self))
          (Application.next_iid self)
          (<[column := (column, negb reverse)]>
             (Application.heading_command self))
          column reverse).
Proof.
  intros Hj Hnd. unfold Application.SortBy. rewrite Hj. cbn [mbind result_bind].
  rewrite list_sort_fmap. cbn [fst].
  pose proof (list_sort_Permutation
                (λ child, strxfrm (Application.tv_set child j)) str_lt
                reverse (Application.tree_view self)) as Hperm.
  assert (Hnd' : NoDup (Application.iid <$>
            list_sort (λ child, strxfrm (Application.tv_set child j)) str_lt
              reverse (Application.tree_view self))) by (by rewrite Hperm).
  pose proof (move_all_order (λ child, Application.tv_set child j)
                _ [] (Application.tree_view self) Hnd' (symmetry Hperm))
    as Hmove.
  cbn [length app] in Hmove. by rewrite Hmove.
Qed.

Lemma Sorted_weaken {A} (R1 R2 : relation A) l :
  (∀ a b, R1 a b → R2 a b) → Sorted R1 l → Sorted R2 l.
Proof.
  intros HR. induction 1 as [|x l Hl IH Hhd]; constructor; [done|].
  destruct Hhd; constructor. by apply HR.
Qed.

Lemma Compare_not_Gt strxfrm a b :
  Compare strxfrm a b ≠ Gt ↔ str_lt (strxfrm b) (strxfrm a) = false.
Proof.
  unfold Compare.
  destruct (str_lt (strxfrm a) (strxfrm b)) eqn:E1;
    destruct (str_lt (strxfrm b) (strxfrm a)) eqn:E2; try done.
  apply str_lt_asym in E1. congruence.
Qed.

Lemma Compare_not_Lt strxfrm a b :
  Compare strxfrm a b ≠ Lt ↔ str_lt (strxfrm a) (strxfrm b) = false.
Proof.
  unfold Compare.
  destruct (str_lt (strxfrm a) (strxfrm b));
    destruct (str_lt (strxfrm b) (strxfrm a)); done.
Qed.

Lemma Compare_Eq strxfrm a b :
  Compare strxfrm a b = Eq
  ↔ same_key strxfrm str_lt (strxfrm b) a.
Proof.
  unfold Compare, same_key.
  destruct (str_lt (strxfrm a) (strxfrm b));
    destruct (str_lt (strxfrm b) (strxfrm a)); done.
Qed.

(** Two strings compare equal exactly when [strxfrm] gives them one key. *)
Lemma Compare_Eq_key strxfrm a b :
  Compare strxfrm a b = Eq ↔ strxfrm a = strxfrm b.
Proof.
  unfold Compare. split.
  - destruct (str_lt (strxfrm a) (strxfrm b)) eqn:E1; [done|].
    destruct (str_lt (strxfrm b) (strxfrm a)) eqn:E2; [done|].
    intros _. by apply str_lt_total.
  - intros ->. by rewrite str_lt_irrefl.
Qed.

(** C6: [SortBy] leaves the rows of the view in an order that is a
    permutation of the old one, sorted under the collation comparator on
    the values of the column (ascending, or descending for [reverse]), and
    in which the rows whose values compare equal stand in their old
    relative order.  The rows with keys [B], [A], [B] and identifiers 1, 2,
    3, sorted ascending, come out as 2, 1, 3. *)
Theorem SortBy_stable (strxfrm : pystr → pystr) (self : Application.state)
    (column : string) (reverse : bool) (j : nat) :
  Application.column_index column = Ok j →
  NoDup (Application.iid <$> Application.tree_view self) →
  let value := λ child, Application.tv_set child j in
  (∃ self',
     Application.SortBy strxfrm self column reverse = Ok self'
     ∧ Application.tree_view self' ≡ₚ Application.tree_view self
     ∧ Sorted (λ a b, Compare strxfrm (value a) (value b)
                      ≠ (if reverse then Lt else Gt))
         (Application.tree_view self')
     ∧ ∀ x,
         filter (λ child, Compare strxfrm (value child) x = Eq)
                (Application.tree_view self')
         = filter (λ child, Compare strxfrm (value child) x = Eq)
                  (Application.tree_view self))
  ∧ (str_lt (strxfrm (str "A")) (strxfrm (str "B")) = true →
     ∃ self',
       Application.SortBy strxfrm
         (with_tree_view self
            [Application.Item 1 [str "1"; str "S"; str "B"];
             Application.Item 2 [str "2"; str "S"; str "A"];
             Application.Item 3 [str "3"; str "S"; str "B"]])
         "Author" false = Ok self'
       ∧ Application.tree_view self'
         = [Application.Item 2 [str "2"; str "S"; str "A"];
            Application.Item 1 [str "1"; str "S"; str "B"];
            Application.Item 3 [str "3"; str "S"; str "B"]]).
Proof.
  intros Hj Hnd value. split.
  - eexists. split; [by apply SortBy_sorted_view|]. cbn.
    split; [apply list_sort_Permutation|]. split.
    + eapply Sorted_weaken;
        [|apply (list_sort_Sorted _ str_lt str_lt_asym reverse)].
      intros a b. unfold key_le. destruct reverse; simpl.
      * by rewrite Compare_not_Lt.
      * by rewrite Compare_not_Gt.
    + intros x.
      rewrite !(list_filter_iff _ _ _ (λ child, Compare_Eq strxfrm _ x)).
      apply (list_sort_filter (λ child, strxfrm (value child)) str_lt
               str_le_trans).
  - intros Hab.
    set (r1 := Application.Item 1 [str "1"; str "S"; str "B"]).
    set (r2 := Application.Item 2 [str "2"; str "S"; str "A"]).
    set (r3 := Application.Item 3 [str "3"; str "S"; str "B"]).
    eexists. split.
    + apply (SortBy_sorted_view _ _ _ _ 2); [done|].
      cbn. repeat (apply NoDup_cons; split; [set_solver|]). apply NoDup_nil_2.
    + cbn [Application.tree_view with_tree_view list_sort stable_sort foldr
             sort_insert].
      assert (H21 : str_lt (strxfrm (Application.tv_set r2 2))
                      (strxfrm (Application.tv_set r1 2)) = true)
        by exact Hab.
      assert (H12 : str_lt (strxfrm (Application.tv_set r1 2))
                      (strxfrm (Application.tv_set r2 2)) = false)
        by (by apply str_lt_asym).
      assert (H32 : str_lt (strxfrm (Application.tv_set r3 2))
                      (strxfrm (Application.tv_set r2 2)) = false)
        by exact H12.
      assert (H31 : str_lt (strxfrm (Application.tv_set r3 2))
                      (strxfrm (Application.tv_set r1 2)) = false)
        by apply str_lt_irrefl.
      rewrite H32. cbn [sort_insert]. rewrite H21. cbn [sort_insert].
      by rewrite H31.
Qed.

(** ** The headings *)

Lemma DISPLAYED_COLUMNS_eq :
  DISPLAYED_COLUMNS = ["ID"; "Shelf"; "Author"; "Title"; "Borrowed"]%string.
Proof. reflexivity. Qed.

Lemma column_index_displayed column :
  column ∈ DISPLAYED_COLUMNS → ∃ j, Application.column_index column = Ok j.
Proof.
  rewrite DISPLAYED_COLUMNS_eq. intros H.
  repeat (apply elem_of_cons in H as [->|H]; [by eexists|]).
  by apply elem_of_nil in H.
Qed.

Lemma tv_insert_rows (rows : list (list pystr)) tv n :
  Application.iid <$> (foldl (λ tv r, Application.tv_insert r tv) (tv, n) rows).1
  = (Application.iid <$> tv) ++ seq n (length rows).
Proof.
  revert tv n. induction rows as [|r rows IH]; intros tv n; simpl.
  - by rewrite app_nil_r.
  - unfold Application.tv_insert at 2. simpl. rewrite IH.
    by rewrite fmap_app, <-(assoc_L (++)).
Qed.

Lemma tv_insert_fresh (rows : list Application.row) n :
  NoDup (Application.iid <$>
           (foldl (λ tv (r : Application.row),
                     Application.tv_insert (default [] <$> r) tv)
                  ([], n) rows).1).
Proof.
  pose proof (tv_insert_rows
                ((λ r : Application.row, default [] <$> r) <$> rows) [] n)
    as H.
  rewrite foldl_fmap in H. rewrite H. simpl. apply NoDup_seq.
Qed.














Lemma small_window_view :
  Application.tree_view small_window
  = [Application.Item 2
       [str "3"; str "A1"; str "Lem"; str "Eden"; []; []; []];
     Application.Item 0
       [str "1"; str "B2"; str "Lem"; str "Solaris"; []; []; []];
     Application.Item 1
       [str "2"; str "A1"; str "Eco"; str "Baudolino"; str "Ann"; []; []]]
  ∧ Application.clicked_column small_window = "Author"%string
  ∧ Application.reverse small_window = true.
Proof. split_conj; reflexivity. Qed.



Lemma SortBy_stable_witness :
  let value := λ child, Application.tv_set child 2 in
  (∃ self',
     Application.SortBy strxfrm_C small_window "Author" true = Ok self'
     ∧ Application.tree_view self' ≡ₚ Application.tree_view small_window
     ∧ Sorted (λ a b, Compare strxfrm_C (value a) (value b)
                      ≠ (if true then Lt else Gt))
         (Application.tree_view self')
     ∧ ∀ x,
         filter (λ child, Compare strxfrm_C (value child) x = Eq)
                (Application.tree_view self')
         = filter (λ child, Compare strxfrm_C (value child) x = Eq)
                  (Application.tree_view small_window))
  ∧ (str_lt (strxfrm_C (str "A")) (strxfrm_C (str "B")) = true →
     ∃ self',
       Application.SortBy strxfrm_C
         (with_tree_view small_window
            [Application.Item 1 [str "1"; str "S"; str "B"];
             Application.Item 2 [str "2"; str "S"; str "A"];
             Application.Item 3 [str "3"; str "S"; str "B"]])
         "Author" false = Ok self'
       ∧ Application.tree_view self'
         = [Application.Item 2 [str "2"; str "S"; str "A"];
            Application.Item 1 [str "1"; str "S"; str "B"];
            Application.Item 3 [str "3"; str "S"; str "B"]]).
Proof.
  apply (SortBy_stable strxfrm_C small_window "Author" true 2).
  - reflexivity.
  - apply (bool_decide_unpack _). vm_compute. exact I.
Defined.


(** * Further facts *)

(** ** The dict as a cache *)

Lemma getitem_grows decomposition table key x table' :
  UnaccentedMap.__getitem__ decomposition table key = Ok (x, table') →
  table ⊆ table' ∧ dom table' = dom table ∪ {[key]}
  ∧ table' !! key = Some x.
Proof.
  unfold UnaccentedMap.__getitem__, UnaccentedMap.__missing__.
  destruct (table !! key) as [v|] eqn:E.
  - intros [= <- <-]. split_conj; [done| |done].
    apply elem_of_dom_2 in E. set_solver.
  - destruct (chr key) as [c|e]; [|done]. cbn. intros [= <- <-].
    split_conj.
    + by apply insert_subseteq.
    + rewrite dom_insert_L. set_solver.
    + by rewrite lookup_insert_eq.
Qed.

(** X1: a translation never changes or removes an entry of the dict: it adds
    the characters of the string that were not there, and nothing else. *)
Theorem str_translate_grows (decomposition : Z → string)
    (table : gmap Z pyval) (s out : pystr) (table' : gmap Z pyval) :
  UnaccentedMap.str_translate decomposition table s = Ok (out, table') →
  table ⊆ table' ∧ dom table' = dom table ∪ list_to_set s.
Proof.
  revert table out table'. induction s as [|c s IH]; intros table out table'.
  - intros [= <- <-]. split; [done|]. set_solver.
  - cbn [UnaccentedMap.str_translate].
    destruct (UnaccentedMap.__getitem__ _ table c) as [[x t1]|e] eqn:E1;
      [|done]. cbn.
    destruct (UnaccentedMap.replacement x) as [r|e]; [|done]. cbn.
    destruct (UnaccentedMap.str_translate _ t1 s) as [[o t2]|e] eqn:E2;
      [|done]. cbn.
    intros [= <- <-].
    apply getitem_grows in E1 as (Hsub1 & Hdom1 & _).
    apply IH in E2 as (Hsub2 & Hdom2). split.
    + by etrans.
    + rewrite Hdom2, Hdom1. set_solver.
Qed.

Lemma str_translate_grows_witness :
  ({[ 0x1D7 := PyInt 0xDC ]} : gmap Z pyval)
    ⊆ {[ 0x1D7 := PyInt 0xDC; 0xDC := PyInt 0x55 ]}
  ∧ dom ({[ 0x1D7 := PyInt 0xDC; 0xDC := PyInt 0x55 ]} : gmap Z pyval)
    = dom ({[ 0x1D7 := PyInt 0xDC ]} : gmap Z pyval) ∪ list_to_set [0xDC].
Proof.
  apply (str_translate_grows unicodedata_decomposition
           {[ 0x1D7 := PyInt 0xDC ]} [0xDC] [0x55]).
  evaluate.
Defined.

(** X2: translating a concatenation is translating its parts one after the
    other on the same dict, errors included. *)
Theorem str_translate_app (decomposition : Z → string)
    (table : gmap Z pyval) (s t : pystr) :
  UnaccentedMap.str_translate decomposition table (s ++ t)
  = '(out1, table1) ← UnaccentedMap.str_translate decomposition table s;
    '(out2, table2) ← UnaccentedMap.str_translate decomposition table1 t;
    Ok (out1 ++ out2, table2).
Proof.
  revert table. induction s as [|c s IH]; intros table.
  - cbn. by destruct (UnaccentedMap.str_translate _ table t) as [[??]|].
  - cbn [app UnaccentedMap.str_translate].
    destruct (UnaccentedMap.__getitem__ _ table c) as [[x t1]|e]; [|done].
    cbn. destruct (UnaccentedMap.replacement x) as [r|e]; [|done]. cbn.
    rewrite IH.
    destruct (UnaccentedMap.str_translate _ t1 s) as [[o1 t2]|e]; [|done].
    cbn.
    destruct (UnaccentedMap.str_translate _ t2 t) as [[o2 t3]|e]; [|done].
    cbn. by rewrite (assoc_L (++)).
Qed.

Lemma getitem_cached decomposition table key x table' :
  cached decomposition table →
  UnaccentedMap.__getitem__ decomposition table key = Ok (x, table') →
  x = UnaccentedMap.resolve decomposition key
  ∧ table' = <[key := UnaccentedMap.resolve decomposition key]> table.
Proof.
  intros Hc. unfold UnaccentedMap.__getitem__, UnaccentedMap.__missing__.
  destruct (table !! key) as [v|] eqn:E.
  - intros [= <- <-]. rewrite (Hc _ _ E) in E |- *. by rewrite insert_id.
  - unfold chr. destruct (is_codepointb key); [|done]. cbn.
    by intros [= <- <-].
Qed.

(** Whenever a translation returns, it returns the folded text, and the
    dict still holds resolved values only. *)
Lemma str_translate_Ok decomposition table s out table' :
  cached decomposition table →
  UnaccentedMap.str_translate decomposition table s = Ok (out, table') →
  out = UnaccentedMap.FoldText decomposition s
  ∧ table' = filled decomposition table s
  ∧ cached decomposition table'.
Proof.
  revert table out table'. induction s as [|c s IH]; intros table out table' Hc.
  - by intros [= <- <-].
  - cbn [UnaccentedMap.str_translate].
    destruct (UnaccentedMap.__getitem__ _ table c) as [[x t1]|e] eqn:E1;
      [|done]. cbn.
    apply getitem_cached in E1 as [-> ->]; [|done].
    destruct (UnaccentedMap.replacement _) as [r|e] eqn:Er; [|done]. cbn.
    destruct (UnaccentedMap.str_translate _ _ s) as [[o t2]|e] eqn:E2;
      [|done]. cbn.
    intros [= <- <-].
    apply IH in E2 as (-> & -> & Hc'); [|by apply cached_insert].
    split_conj; [|done|done].
    change (r ++ UnaccentedMap.FoldText decomposition s
            = UnaccentedMap.Fold decomposition c
                ++ UnaccentedMap.FoldText decomposition s).
    f_equal. unfold UnaccentedMap.Fold.
    revert Er. unfold UnaccentedMap.replacement.
    destruct (UnaccentedMap.resolve decomposition c) as [n|r']; cbn.
    + destruct (is_codepointb n); [|done]. by intros [= <-].
    + by intros [= <-].
Qed.

Lemma CHAR_REPLACEMENT_length key s :
  UnaccentedMap.CHAR_REPLACEMENT !! key = Some s →
  (1 ≤ length s ≤ 2)%nat.
Proof.
  intros H. apply elem_of_map_to_list, list_elem_of_In in H.
  assert (Hall : forallb (λ e : Z * pystr,
            bool_decide (1 ≤ length e.2 ≤ 2)%nat)
            (map_to_list UnaccentedMap.CHAR_REPLACEMENT) = true)
    by evaluate.
  rewrite forallb_forall in Hall. specialize (Hall _ H).
  by apply bool_decide_eq_true in Hall.
Qed.

Lemma Fold_length decomposition key :
  (1 ≤ length (UnaccentedMap.Fold decomposition key) ≤ 2)%nat.
Proof.
  unfold UnaccentedMap.Fold, UnaccentedMap.resolve. case_bool_decide.
  - destruct (UnaccentedMap.first_component _); simpl; lia.
  - destruct (UnaccentedMap.CHAR_REPLACEMENT !! key) as [s|] eqn:E;
      simpl; [|lia].
    by apply CHAR_REPLACEMENT_length in E.
Qed.

Lemma FoldText_length decomposition s :
  (length s ≤ length (UnaccentedMap.FoldText decomposition s)
   ≤ 2 * length s)%nat.
Proof.
  induction s as [|c s IH]; [simpl; lia|].
  rewrite FoldText_cons, length_app. simpl.
  pose proof (Fold_length decomposition c). lia.
Qed.

(** X3: folding drops no character and at most doubles the length of a text:
    every character is replaced by one or two characters. In particular
    only the empty text folds to the empty text. *)
Theorem str_translate_length (decomposition : Z → string)
    (table : gmap Z pyval) (s out : pystr) (table' : gmap Z pyval) :
  cached decomposition table →
  UnaccentedMap.str_translate decomposition table s = Ok (out, table') →
  (length s ≤ length out ≤ 2 * length s)%nat ∧ (out = [] ↔ s = []).
Proof.
  intros Hc Htr. apply str_translate_Ok in Htr as (-> & _ & _); [|done].
  pose proof (FoldText_length decomposition s) as Hlen.
  split; [done|]. split.
  - intros H0. rewrite H0 in Hlen. simpl in Hlen.
    destruct s; [done|simpl in Hlen; lia].
  - by intros ->.
Qed.

Lemma str_translate_length_witness :
  (length [0xC6; 0x74; 0x68; 0xE9; 0x72]
   ≤ length [0x41; 0x45; 0x74; 0x68; 0x65; 0x72]
   ≤ 2 * length [0xC6; 0x74; 0x68; 0xE9; 0x72])%nat
  ∧ ([0x41; 0x45; 0x74; 0x68; 0x65; 0x72] = []
     ↔ [0xC6; 0x74; 0x68; 0xE9; 0x72] = []).
Proof.
  apply (str_translate_length unicodedata_decomposition ∅
           [0xC6; 0x74; 0x68; 0xE9; 0x72] [0x41; 0x45; 0x74; 0x68; 0x65; 0x72]
           (filled unicodedata_decomposition ∅
              [0xC6; 0x74; 0x68; 0xE9; 0x72])).
  - apply cached_empty.
  - evaluate.
Defined.

(** ** The window and the dict *)

(** [SortBy] touches the view, the headings and the sort state only. *)
Lemma SortBy_fields strxfrm self column (reverse : bool) self' :
  Application.SortBy strxfrm self column reverse = Ok self' →
  Application.connection self' = Application.connection self
  ∧ Application.UNACCENTED self' = Application.UNACCENTED self
  ∧ Application.search_var self' = Application.search_var self
  ∧ Application.last_search_var self' = Application.last_search_var self
  ∧ Application.next_iid self' = Application.next_iid self.
Proof.
  unfold Application.SortBy.
  destruct (Application.column_index column) as [j|e]; [|done]. cbn.
  destruct (Application.move_all _ _ _) as [tv|e]; [|done]. cbn.
  by intros [= <-].
Qed.







(** ** Words *)

Lemma pieces_not_nil s : pieces s ≠ [].
Proof.
  destruct s as [|c s]; simpl; [done|].
  destruct (isspace c); [done|]. by destruct (pieces s).
Qed.

(** Cutting at a whitespace character separates the pieces. *)
Lemma pieces_app_cut a x b :
  isspace x = true → pieces (a ++ x :: b) = pieces a ++ pieces b.
Proof.
  intros Hx. induction a as [|c a IH]; simpl.
  - by rewrite Hx.
  - rewrite IH. destruct (isspace c); [done|].
    pose proof (pieces_not_nil a). by destruct (pieces a).
Qed.

Lemma tokens_app_cut a x b :
  isspace x = true → tokens (a ++ x :: b) = tokens a ++ tokens b.
Proof.
  intros Hx. unfold tokens. by rewrite pieces_app_cut, filter_app.
Qed.

Lemma tokens_blank w : Forall (λ c, isspace c = true) w → tokens w = [].
Proof.
  induction 1 as [|c w Hc _ IH]; [done|]. by rewrite tokens_space.
Qed.

Lemma tokens_app_blank v w :
  Forall (λ c, isspace c = true) w → tokens (v ++ w) = tokens v.
Proof.
  intros Hw. destruct Hw as [|x w Hx Hw]; [by rewrite app_nil_r|].
  by rewrite tokens_app_cut, (tokens_blank w), app_nil_r.
Qed.

Lemma pieces_word t : Forall (λ c, isspace c = false) t → pieces t = [t].
Proof.
  induction 1 as [|c t Hc _ IH]; simpl; [done|]. by rewrite Hc, IH.
Qed.

Lemma tokens_word_only t : is_word t → tokens t = [t].
Proof.
  intros [Hne Ht]. unfold tokens. rewrite pieces_word by done.
  by rewrite filter_cons_True, filter_nil.
Qed.

Lemma isspace_space : isspace 0x20 = true.
Proof. reflexivity. Qed.

Lemma tokens_join ts :
  Forall is_word ts → tokens (str_join (str " ") ts) = ts.
Proof.
  induction 1 as [|t ts Ht Hts IH]; [done|].
  destruct ts as [|t' ts]; [by apply tokens_word_only|].
  change (str_join (str " ") (t :: t' :: ts))
    with (t ++ 0x20 :: str_join (str " ") (t' :: ts)).
  rewrite tokens_app_cut by apply isspace_space.
  by rewrite IH, tokens_word_only.
Qed.

Lemma tokens_are_words s : Forall is_word (tokens s).
Proof. apply tokens_words. Qed.

(** X5: splitting undoes joining: a list of words joined by single spaces
    splits into these same words; and joining the words of a string by
    single spaces gives a string with these same words. *)
Theorem str_split_join (ts : list pystr) (s : pystr) :
  Forall is_word ts →
  str_split (str_join (str " ") ts) = ts
  ∧ str_split (str_join (str " ") (str_split s)) = str_split s.
Proof.
  intros Hts. rewrite !str_split_tokens. split; [by apply tokens_join|].
  apply tokens_join, tokens_are_words.
Qed.

Lemma str_split_join_witness :
  str_split (str_join (str " ") [str "Stanis"; [0x141; 0x61; 0x77]])
    = [str "Stanis"; [0x141; 0x61; 0x77]]
  ∧ str_split (str_join (str " ") (str_split (str "  Jane   Doe ")))
    = str_split (str "  Jane   Doe ").
Proof.
  apply (str_split_join [str "Stanis"; [0x141; 0x61; 0x77]]
           (str "  Jane   Doe ")).
  repeat (apply Forall_cons; split;
            [split; [done|by repeat constructor]|]).
  apply Forall_nil_2.
Defined.

(** What [strip] removes at the end is whitespace. *)
Lemma drop_while_end {A} (p : A → bool) (u : list A) :
  ∃ w, u = reverse (drop_while p (reverse u)) ++ w
       ∧ Forall (λ x, p x = true) w.
Proof.
  induction u as [|x u IH] using rev_ind.
  - by exists [].
  - rewrite reverse_snoc. simpl. destruct (p x) eqn:E.
    + destruct IH as (w & Hu & Hw). exists (w ++ [x]). split.
      * by rewrite (assoc_L (++)), <-Hu.
      * apply Forall_app. split; [done|by apply Forall_singleton].
    + exists []. rewrite reverse_cons, reverse_involutive.
      by rewrite app_nil_r.
Qed.

Lemma tokens_strip s : tokens (str_strip s) = tokens s.
Proof.
  unfold str_strip. rewrite <-(tokens_drop_space s).
  destruct (drop_while_end isspace (drop_while isspace s)) as (w & Hu & Hw).
  rewrite Hu at 2. by rewrite tokens_app_blank.
Qed.

Lemma squeezed_tokens text : squeezed text = str_join (str " ") (tokens text).
Proof. unfold squeezed. by rewrite str_split_tokens, tokens_strip. Qed.

Lemma drop_while_keep {A} (p : A → bool) (l m : list A) :
  l ≠ [] → drop_while p l = l → drop_while p (l ++ m) = l ++ m.
Proof.
  destruct l as [|x l]; [done|]. intros _. simpl.
  destruct (p x); [|done]. intros H.
  pose proof (drop_while_length p l) as Hlen. rewrite H in Hlen.
  simpl in Hlen. lia.
Qed.

Lemma word_starts t : is_word t → drop_while isspace t = t.
Proof.
  intros [Hne Ht]. destruct Ht as [|c t Hc _]; [done|]. simpl. by rewrite Hc.
Qed.

Lemma word_ends t : is_word t → drop_while isspace (reverse t) = reverse t.
Proof.
  intros [Hne Ht]. apply Forall_reverse in Ht.
  destruct (reverse t) as [|c r] eqn:E.
  - apply (f_equal reverse) in E. by rewrite reverse_involutive in E.
  - apply Forall_cons in Ht as [Hc _]. simpl. by rewrite Hc.
Qed.

Lemma join_words_not_nil t ts : is_word t → str_join (str " ") (t :: ts) ≠ [].
Proof. intros [Hne _]. destruct ts; simpl; [done|]. by destruct t. Qed.

Lemma join_words_starts ts :
  Forall is_word ts →
  drop_while isspace (str_join (str " ") ts) = str_join (str " ") ts.
Proof.
  intros Hts. destruct Hts as [|t ts Ht _]; [done|].
  destruct ts as [|t' ts].
  - by apply word_starts.
  - change (str_join (str " ") (t :: t' :: ts))
      with (t ++ (0x20 :: str_join (str " ") (t' :: ts))).
    apply drop_while_keep; [by destruct Ht|by apply word_starts].
Qed.

Lemma join_words_ends ts :
  Forall is_word ts →
  drop_while isspace (reverse (str_join (str " ") ts))
  = reverse (str_join (str " ") ts).
Proof.
  induction 1 as [|t ts Ht Hts IH]; [done|]. destruct ts as [|t' ts].
  - by apply word_ends.
  - change (str_join (str " ") (t :: t' :: ts))
      with (t ++ (0x20 :: str_join (str " ") (t' :: ts))).
    rewrite reverse_app, reverse_cons, <-(assoc_L (++)).
    apply drop_while_keep; [|done].
    intros Hnil. apply (f_equal reverse) in Hnil.
    rewrite reverse_involutive in Hnil.
    apply Forall_cons in Hts as [Ht' _].
    by apply (join_words_not_nil t' ts).
Qed.

Lemma str_strip_join_words ts :
  Forall is_word ts →
  str_strip (str_join (str " ") ts) = str_join (str " ") ts.
Proof.
  intros Hts. unfold str_strip.
  by rewrite join_words_starts, join_words_ends, reverse_involutive.
Qed.

Lemma tokens_nil_blank s : tokens s = [] ↔ Forall (λ c, isspace c = true) s.
Proof.
  split; [|apply tokens_blank]. intros H.
  pose proof (tokens_words s) as [_ Hcat]. rewrite H in Hcat. simpl in Hcat.
  apply Forall_forall. intros c Hc. destruct (isspace c) eqn:E; [done|].
  assert (c ∈ filter (λ c, isspace c = false) s)
    by (by apply list_elem_of_filter).
  rewrite <-Hcat in *. by apply elem_of_nil in H0.
Qed.

(** X6: the text [InsertBook] stores for an entry is the words of the entry
    joined by single spaces.  Storing is idempotent and keeps the words; the
    stored text has no whitespace at either end, and it is empty exactly when
    the entry holds nothing but whitespace. A search for the stored text
    and a search for the entry give one pattern. *)
Theorem squeezed_normal (decomposition : Z → string) (table : gmap Z pyval)
    (text : pystr) :
  squeezed text = str_join (str " ") (str_split text)
  ∧ squeezed (squeezed text) = squeezed text
  ∧ str_split (squeezed text) = str_split text
  ∧ str_strip (squeezed text) = squeezed text
  ∧ (squeezed text = [] ↔ Forall (λ c, isspace c = true) text)
  ∧ Application.search_pattern decomposition table (squeezed text)
    = Application.search_pattern decomposition table text.
Proof.
  assert (Hwords : str_split (squeezed text) = str_split text).
  { rewrite squeezed_tokens, !str_split_tokens.
    apply tokens_join, tokens_are_words. }
  split_conj.
  - by rewrite squeezed_tokens, str_split_tokens.
  - rewrite (squeezed_tokens (squeezed text)), <-str_split_tokens, Hwords.
    by rewrite squeezed_tokens, str_split_tokens.
  - done.
  - rewrite squeezed_tokens. apply str_strip_join_words, tokens_are_words.
  - rewrite <-tokens_nil_blank, squeezed_tokens.
    pose proof (tokens_are_words text) as Hw.
    destruct (tokens text) as [|t ts]; [done|].
    apply Forall_cons in Hw as [Ht _].
    split; [|done]. intros Hnil. by apply join_words_not_nil in Hnil.
  - unfold Application.search_pattern. by rewrite Hwords.
Qed.

(** ** Folding and joining *)

Lemma Fold_plain decomposition c :
  decomposition c = ""%string →
  UnaccentedMap.CHAR_REPLACEMENT !! c = None →
  UnaccentedMap.Fold decomposition c = [c].
Proof.
  intros Hde Hov. unfold UnaccentedMap.Fold, UnaccentedMap.resolve.
  by rewrite Hde, Hov.
Qed.

Lemma FoldText_join decomposition (l : list pystr) :
  decomposition 0x20 = ""%string →
  UnaccentedMap.FoldText decomposition (str_join (str " ") l)
  = str_join (str " ") (UnaccentedMap.FoldText decomposition <$> l).
Proof.
  intros Hsp. induction l as [|s l IH]; [done|].
  destruct l as [|s' l]; [done|].
  change (str_join (str " ") (s :: s' :: l))
    with (s ++ [0x20] ++ str_join (str " ") (s' :: l)).
  rewrite !FoldText_app, IH.
  change (UnaccentedMap.FoldText decomposition [0x20])
    with (UnaccentedMap.Fold decomposition 0x20 ++ []).
  by rewrite (Fold_plain decomposition 0x20 Hsp).
Qed.

(** X7: when the space and the asterisk have no decomposition, as in the
    Unicode data, folding leaves the shape of both texts alone: the search
    pattern is the folded words of the input, each followed by [*], and the
    indexed content is the folded fields that are not empty, both joined by
    single spaces. *)
Theorem folded_terms (decomposition : Z → string) (table : gmap Z pyval)
    (raw : pystr)
    (shelf author title translator original_title borrowed : option pystr) :
  codepoints_only decomposition → cached decomposition table →
  decomposition 0x20 = ""%string → decomposition 0x2A = ""%string →
  is_str raw →
  Forall (λ f, from_option is_str True f)
         [author; title; translator; original_title] →
  (∃ table',
     Application.search_pattern decomposition table raw
     = Ok (str_join (str " ")
             ((λ t, UnaccentedMap.FoldText decomposition t ++ str "*")
                <$> str_split raw),
           table'))
  ∧ ∃ table',
      Application.MakeFtsContent decomposition table
        [shelf; author; title; translator; original_title; borrowed]
      = Ok (str_join (str " ")
              (UnaccentedMap.FoldText decomposition
                 <$> kept [author; title; translator; original_title]),
            table').
Proof.
  intros Hok Hc Hsp Hast Hraw Hfields. split.
  - eexists. rewrite search_pattern_FoldText by done.
    rewrite FoldText_join by done. rewrite str_split_tokens.
    rewrite <-list_fmap_compose. do 3 f_equal.
    apply list_fmap_ext. intros _ t _. unfold compose.
    rewrite FoldText_app.
    change (UnaccentedMap.FoldText decomposition (str "*"))
      with (UnaccentedMap.Fold decomposition 0x2A ++ []).
    by rewrite (Fold_plain decomposition 0x2A Hast).
  - eexists. unfold Application.MakeFtsContent.
    change (Application.slice _ _ _)
      with [author; title; translator; original_title].
    rewrite omap_kept. rewrite str_translate_FoldText; [|done..|].
    + by rewrite FoldText_join.
    + apply str_join_is_str; [apply str_is_str|by apply kept_is_str].
Qed.

Lemma folded_terms_witness :
  (∃ table',
     Application.search_pattern unicodedata_decomposition ∅
       [0xC9; 0x63; 0x6F; 0x20; 0x20; 0x4C]
     = Ok (str_join (str " ")
             ((λ t, UnaccentedMap.FoldText unicodedata_decomposition t
                    ++ str "*")
                <$> str_split [0xC9; 0x63; 0x6F; 0x20; 0x20; 0x4C]),
           table'))
  ∧ ∃ table',
      Application.MakeFtsContent unicodedata_decomposition ∅
        [Some (str "A1"); Some [0xC9; 0x63; 0x6F]; Some (str "Baudolino");
         None; Some []; None]
      = Ok (str_join (str " ")
              (UnaccentedMap.FoldText unicodedata_decomposition
                 <$> kept [Some [0xC9; 0x63; 0x6F]; Some (str "Baudolino");
                           None; Some []]),
            table').
Proof.
  apply (folded_terms unicodedata_decomposition ∅
           [0xC9; 0x63; 0x6F; 0x20; 0x20; 0x4C]
           (Some (str "A1")) (Some [0xC9; 0x63; 0x6F])
           (Some (str "Baudolino")) None (Some []) None).
  - apply unicode_data_codepoints.
  - apply cached_empty.
  - reflexivity.
  - reflexivity.
  - unfold is_str, is_codepoint. repeat constructor; lia.
  - repeat (apply Forall_cons; split;
              [first [exact I | apply str_is_str
                     | unfold is_codepoint; repeat constructor; lia]|]).
    apply Forall_nil_2.
Defined.

(** ** [Select] *)

Lemma tv_insert_values (rows : list (list pystr)) tv n :
  Application.values
    <$> (foldl (λ tv r, Application.tv_insert r tv) (tv, n) rows).1
  = (Application.values <$> tv) ++ rows.
Proof.
  revert tv n. induction rows as [|r rows IH]; intros tv n; simpl.
  - by rewrite app_nil_r.
  - unfold Application.tv_insert at 2. simpl. rewrite IH.
    by rewrite fmap_app, <-(assoc_L (++)).
Qed.

Lemma tv_insert_next (rows : list (list pystr)) tv n :
  (foldl (λ tv r, Application.tv_insert r tv) (tv, n) rows).2
  = (n + length rows)%nat.
Proof.
  revert tv n. induction rows as [|r rows IH]; intros tv n; simpl; [lia|].
  unfold Application.tv_insert at 2. simpl. rewrite IH. lia.
Qed.

(** X8: [Select] runs the query only when the text of the search box differs
    from the text of the last query: called again on the state it
    returned, or after a key that leaves the text as it is, it changes
    nothing and asks the database nothing. *)
Theorem Select_memo (decomposition : Z → string) (strxfrm : pystr → pystr)
    (self self' : Application.state) :
  Application.Select decomposition strxfrm self = Ok self' →
  Application.last_search_var self' = Some (Application.search_var self')
  ∧ Application.Select decomposition strxfrm self' = Ok self'
  ∧ Application.handle decomposition strxfrm self'
      (Application.KeyPressed (Application.search_var self')) = Ok self'.
Proof.
  intros Hsel.
  assert (Hlast : Application.last_search_var self'
                  = Some (Application.search_var self')).
  { revert Hsel. unfold Application.Select.
    case_bool_decide as Hsame; [by intros [= <-]|].
    destruct (Application.search_pattern _ _ _) as [[pattern table]|e];
      [|done]. cbn.
    destruct (Application.connection self pattern) as [rows|e]; [|done].
    cbn. intros Hsort.
    by apply SortBy_fields in Hsort as (_ & _ & -> & -> & _). }
  split; [done|].
  assert (Hagain : Application.Select decomposition strxfrm self' = Ok self').
  { unfold Application.Select. by rewrite bool_decide_true. }
  split; [done|]. cbn [Application.handle]. by destruct self'.
Qed.

Lemma Select_memo_witness :
  Application.last_search_var small_window
    = Some (Application.search_var small_window)
  ∧ Application.Select unicodedata_decomposition strxfrm_C small_window
    = Ok small_window
  ∧ Application.handle unicodedata_decomposition strxfrm_C small_window
      (Application.KeyPressed (Application.search_var small_window))
    = Ok small_window.
Proof.
  apply (Select_memo unicodedata_decomposition strxfrm_C small_window).
  evaluate.
Defined.

(** X9: when the text has changed, [Select] replaces the rows of the view by
    the rows the database returns for the pattern, with the empty string
    for [NULL], under item identifiers that were never used before. *)
Theorem Select_view (decomposition : Z → string) (strxfrm : pystr → pystr)
    (self self' : Application.state) :
  Application.clicked_column self ∈ DISPLAYED_COLUMNS →
  Some (Application.search_var self) ≠ Application.last_search_var self →
  Application.Select decomposition strxfrm self = Ok self' →
  ∃ pattern rows,
    Application.search_pattern decomposition (Application.UNACCENTED self)
      (Application.search_var self)
    = Ok (pattern, Application.UNACCENTED self')
    ∧ Application.connection self pattern = Ok rows
    ∧ Application.values <$> Application.tree_view self'
      ≡ₚ (λ r : Application.row, default [] <$> r) <$> rows
    ∧ Application.iid <$> Application.tree_view self'
      ≡ₚ seq (Application.next_iid self) (length rows)
    ∧ Application.next_iid self'
      = (Application.next_iid self + length rows)%nat
    ∧ Application.clicked_column self' = Application.clicked_column self
    ∧ Application.reverse self' = Application.reverse self.
Proof.
  intros Hcol Hnew. unfold Application.Select.
  rewrite bool_decide_false by done.
  destruct (Application.search_pattern _ _ _) as [[pattern table]|e];
    [|done]. cbn.
  destruct (Application.connection self pattern) as [rows|e] eqn:Hrows;
    [|done]. cbn.
  intros Hsort. exists pattern, rows.
  destruct (column_index_displayed _ Hcol) as [j Hj].
  rewrite (SortBy_sorted_view _ _ _ _ j) in Hsort;
    [|done|apply tv_insert_fresh].
  injection Hsort as <-.
  cbn [Application.tree_view Application.next_iid Application.UNACCENTED
         Application.clicked_column Application.reverse].
  pose proof (foldl_fmap (λ tv r, Application.tv_insert r tv)
                ([], Application.next_iid self) rows
                (λ r : Application.row, default [] <$> r)) as Hfold.
  cbn in Hfold. split_conj; try done.
  - rewrite list_sort_Permutation, <-Hfold.
    by rewrite tv_insert_values.
  - rewrite list_sort_Permutation, <-Hfold.
    by rewrite tv_insert_rows, length_fmap.
  - rewrite <-Hfold. by rewrite tv_insert_next, length_fmap.
Qed.

Lemma Select_view_witness :
  ∃ self' pattern rows,
    Application.search_pattern unicodedata_decomposition ∅ (str "lem")
    = Ok (pattern, Application.UNACCENTED self')
    ∧ small_library pattern = Ok rows
    ∧ Application.values <$> Application.tree_view self'
      ≡ₚ (λ r : Application.row, default [] <$> r) <$> rows
    ∧ Application.iid <$> Application.tree_view self'
      ≡ₚ seq 3 (length rows)
    ∧ Application.next_iid self' = (3 + length rows)%nat
    ∧ Application.clicked_column self' = "Author"%string
    ∧ Application.reverse self' = true.
Proof.
  eexists.
  apply (Select_view unicodedata_decomposition strxfrm_C
           (Application.State small_library ∅ (str "lem") (Some []) [] 3 ∅
              "Author" true)).
  - rewrite DISPLAYED_COLUMNS_eq. set_solver.
  - done.
  - evaluate.
Defined.

(** ** Sorting again *)

Section SortAgain.

Context {A K : Type} (key : A → K) (lt : K → K → bool).

Hypothesis lt_asym : ∀ a b, lt a b = true → lt b a = false.

Hypothesis le_trans :
  ∀ a b c, lt b a = false → lt c b = false → lt c a = false.

Hypothesis lt_total : ∀ a b, lt a b = false → lt b a = false → a = b.

(** A sorted list is left as it is. *)
Lemma stable_sort_sorted l :
  Sorted (key_le key lt) l → stable_sort key lt l = l.
Proof.
  induction 1 as [|x l Hl IH Hhd]; [done|].
  unfold stable_sort in *. cbn [foldr]. rewrite IH.
  destruct Hhd as [|y l' Hxy]; [done|]. simpl.
  unfold key_le in Hxy. by rewrite Hxy.
Qed.

Lemma list_sort_again (descending : bool) l :
  list_sort key lt descending (list_sort key lt descending l)
  = list_sort key lt descending l.
Proof.
  destruct descending; simpl.
  - rewrite reverse_involutive.
    by rewrite (stable_sort_sorted (stable_sort key lt _))
      by (by apply stable_sort_Sorted).
  - apply stable_sort_sorted. by apply stable_sort_Sorted.
Qed.

Instance key_le_trans : Transitive (key_le key lt).
Proof. intros x y z Hxy Hyz. unfold key_le in *. by eapply le_trans. Qed.

Lemma key_inj l x y :
  NoDup (key <$> l) → x ∈ l → y ∈ l → key x = key y → x = y.
Proof.
  induction l as [|z l IH]; [by intros _ ?%elem_of_nil|].
  rewrite fmap_cons, NoDup_cons.
  intros [Hz Hnd] [->|Hx]%elem_of_cons [->|Hy]%elem_of_cons Heq; auto.
  - destruct Hz. rewrite Heq. by apply list_elem_of_fmap_2.
  - destruct Hz. rewrite <-Heq. by apply list_elem_of_fmap_2.
Qed.

(** With pairwise different keys there is one sorted order. *)
Lemma sorted_unique l1 l2 :
  NoDup (key <$> l1) →
  Sorted (key_le key lt) l1 → Sorted (key_le key lt) l2 → l1 ≡ₚ l2 →
  l1 = l2.
Proof.
  intros Hnd H1 H2 Hperm. apply (Sorted_unique_strong (key_le key lt));
    [|done..].
  intros x y Hx Hy Hxy Hyx. rewrite <-Hperm in Hy.
  apply (key_inj l1); [done..|]. unfold key_le in *. by apply lt_total.
Qed.

(** With pairwise different keys the other direction is the reverse. *)
Lemma list_sort_negb (descending : bool) l :
  NoDup (key <$> l) →
  list_sort key lt (negb descending) l
  = reverse (list_sort key lt descending l).
Proof.
  intros Hnd.
  assert (Hrev : stable_sort key lt (reverse l) = stable_sort key lt l).
  { apply sorted_unique.
    - by rewrite stable_sort_Permutation, reverse_Permutation.
    - by apply stable_sort_Sorted.
    - by apply stable_sort_Sorted.
    - by rewrite !stable_sort_Permutation, reverse_Permutation. }
  destruct descending; simpl.
  - by rewrite reverse_involutive, Hrev.
  - by rewrite Hrev.
Qed.

End SortAgain.

(** X10: sorting the view a second time by the same column in the same
    direction changes nothing: not the order of the rows, not the command
    of the heading. *)
Theorem SortBy_again (strxfrm : pystr → pystr) (self self' : Application.state)
    (column : string) (reverse : bool) :
  column ∈ DISPLAYED_COLUMNS →
  NoDup (Application.iid <$> Application.tree_view self) →
  Application.SortBy strxfrm self column reverse = Ok self' →
  Application.SortBy strxfrm self' column reverse = Ok self'.
Proof.
  intros [j Hj]%column_index_displayed Hnd.
  rewrite (SortBy_sorted_view _ _ _ _ j) by done. intros [= <-].
  rewrite (SortBy_sorted_view _ _ _ _ j);
    [|done|by cbn; rewrite list_sort_Permutation].
  cbn [Application.connection Application.UNACCENTED Application.search_var
         Application.last_search_var Application.tree_view
         Application.next_iid Application.heading_command].
  rewrite insert_insert_eq.
  by rewrite (list_sort_again _ str_lt str_lt_asym).
Qed.

Lemma SortBy_again_witness :
  Application.SortBy strxfrm_C small_window "Author" true = Ok small_window.
Proof.
  apply (SortBy_again strxfrm_C small_window small_window "Author" true).
  - rewrite DISPLAYED_COLUMNS_eq. set_solver.
  - apply (bool_decide_unpack _). vm_compute. exact I.
  - evaluate.
Defined.

(** X11: when no two rows have the same key in the column, sorting in the
    other direction turns the order of the rows round: the second click on
    a heading shows the rows of the first click from last to first. *)
Theorem SortBy_reversed (strxfrm : pystr → pystr)
    (self self1 self2 : Application.state) (column : string)
    (reverse : bool) (j : nat) :
  Application.column_index column = Ok j →
  NoDup (Application.iid <$> Application.tree_view self) →
  NoDup ((λ child, strxfrm (Application.tv_set child j))
           <$> Application.tree_view self) →
  Application.SortBy strxfrm self column reverse = Ok self1 →
  Application.SortBy strxfrm self1 column (negb reverse) = Ok self2 →
  Application.tree_view self2 = list_reverse (Application.tree_view self1).
Proof.
  intros Hj Hnd Hkeys.
  rewrite (SortBy_sorted_view _ _ _ _ j) by done. intros [= <-].
  rewrite (SortBy_sorted_view _ _ _ _ j);
    [|done|by cbn; rewrite list_sort_Permutation].
  intros [= <-]. cbn [Application.tree_view].
  rewrite (list_sort_negb _ str_lt str_lt_asym str_le_trans str_lt_total)
    by (by rewrite list_sort_Permutation).
  by rewrite (list_sort_again _ str_lt str_lt_asym).
Qed.

Lemma SortBy_reversed_witness :
  ∃ self1 self2,
    Application.SortBy strxfrm_C small_window "Title" false = Ok self1
    ∧ Application.SortBy strxfrm_C self1 "Title" true = Ok self2
    ∧ Application.tree_view self2
      = list_reverse (Application.tree_view self1).
Proof.
  eexists _, _. split; [evaluate|]. split; [evaluate|].
  apply (SortBy_reversed strxfrm_C small_window _ _ "Title" false 3).
  - reflexivity.
  - apply (bool_decide_unpack _). vm_compute. exact I.
  - apply (bool_decide_unpack _). vm_compute. exact I.
  - evaluate.
  - evaluate.
Defined.

(** ** The inverse column order *)

Lemma list_setitem_Some {A} (l l' : list A) i v :
  list_setitem l i v = Some l' → (i < length l)%nat ∧ l' = <[i := v]> l.
Proof. unfold list_setitem. case_decide; [|done]. by intros [= <-]. Qed.

Lemma converse_from_spec i order acc result :
  NoDup order → converse_from i order acc = Some result →
  length result = length acc
  ∧ (∀ k x, order !! k = Some x → result !! x = Some (Some (i + k)%nat))
  ∧ (∀ x, x ∉ order → result !! x = acc !! x).
Proof.
  revert i acc. induction order as [|x order IH]; intros i acc Hnd.
  - intros [= <-]. split_conj; [done| |done]. by intros k x ?.
  - apply NoDup_cons in Hnd as [Hx Hnd]. cbn [converse_from].
    destruct (list_setitem acc x (Some i)) as [acc'|] eqn:E; [|done]. cbn.
    apply list_setitem_Some in E as [Hlt ->].
    intros (Hlen & Hin & Hout)%IH; [|done]. split_conj.
    + by rewrite Hlen, length_insert.
    + intros [|k] y; simpl.
      * intros [= <-]. rewrite (Hout _ Hx), Nat.add_0_r.
        by apply list_lookup_insert_eq.
      * intros Hy. rewrite (Hin _ _ Hy). do 2 f_equal. lia.
    + intros y [Hne Hy]%not_elem_of_cons. rewrite (Hout _ Hy).
      by apply list_lookup_insert_ne.
Qed.

Lemma converse_from_is_Some i order acc :
  Forall (λ x, x < length acc)%nat order ↔ is_Some (converse_from i order acc).
Proof.
  revert i acc. induction order as [|x order IH]; intros i acc.
  - split; [by eexists|constructor].
  - cbn [converse_from]. unfold list_setitem. rewrite Forall_cons.
    case_decide as Hx; cbn.
    + rewrite <-IH, length_insert. tauto.
    + split; [tauto|by intros []].
Qed.

(** X12: the loop that fills the inverse order raises exactly when some column
    of the order is not below the count.  For an order without repetition
    it gives the inverse: the position of every column of the order, and
    [None] for the columns the order leaves out. *)
Theorem converse_inverse (order : list nat) (count : nat) :
  (Forall (λ x, x < count)%nat order ↔ is_Some (converse order count))
  ∧ (NoDup order →
     ∀ result, converse order count = Some result →
       length result = count
       ∧ (∀ i x, order !! i = Some x → result !! x = Some (Some i))
       ∧ (∀ x, x ∉ order → (x < count)%nat → result !! x = Some None))
  ∧ converse COLUMN_ORDER Column.COUNT = Some CONVERSE_COLUMN_ORDER.
Proof.
  split_conj.
  - unfold converse. rewrite <-converse_from_is_Some.
    by rewrite length_replicate.
  - intros Hnd result Hres.
    apply converse_from_spec in Hres as (Hlen & Hin & Hout); [|done].
    rewrite length_replicate in Hlen. split_conj; [done|done|].
    intros x Hx Hlt. rewrite (Hout _ Hx). by apply lookup_replicate_2.
  - reflexivity.
Qed.

Lemma converse_inverse_witness :
  length CONVERSE_COLUMN_ORDER = Column.COUNT
  ∧ (∀ i x, COLUMN_ORDER !! i = Some x →
       CONVERSE_COLUMN_ORDER !! x = Some (Some i))
  ∧ (∀ x, x ∉ COLUMN_ORDER → (x < Column.COUNT)%nat →
       CONVERSE_COLUMN_ORDER !! x = Some None).
Proof.
  destruct (converse_inverse COLUMN_ORDER Column.COUNT) as (_ & Hinv & Heq).
  apply Hinv; [|exact Heq].
  apply (bool_decide_unpack _). vm_compute. exact I.
Defined.

(** ** The dialogs *)

(** X13: the dialog shows every field of a row in the entry of its own column,
    although the view holds the fields in display order; a row with fewer
    than seven values raises [IndexError]. *)
Theorem MakeEntries_columns
    (id shelf author title translator original_title borrowed : pystr)
    (enabled : bool) (item_values : list pystr) :
  Dialog.MakeEntries
    (displayed [id; shelf; author; title; translator; original_title;
                borrowed]) enabled
  = Dialog.Return
      (None :: ((λ t, Some (Dialog.Entry t (negb enabled)))
                  <$> [shelf; author; title; translator; original_title;
                       borrowed]))
  ∧ ((length item_values < Column.COUNT)%nat →
     Dialog.MakeEntries item_values enabled = Dialog.Throw Dialog.IndexError).
Proof.
  split; [reflexivity|]. intros Hlen.
  do 7 (destruct item_values as [|? item_values]; [reflexivity|]).
  simpl in Hlen. unfold Column.COUNT in Hlen. lia.
Qed.

Lemma MakeEntries_columns_witness :
  Dialog.MakeEntries
    (displayed [str "2"; str "A1"; str "Eco"; str "Baudolino"; []; [];
                str "Ann"]) false
  = Dialog.Return
      (None :: ((λ t, Some (Dialog.Entry t (negb false)))
                  <$> [str "A1"; str "Eco"; str "Baudolino"; []; [];
                       str "Ann"]))
  ∧ Dialog.MakeEntries [str "2"; str "A1"; str "Eco"; str "Baudolino"] false
    = Dialog.Throw Dialog.IndexError.
Proof.
  destruct (MakeEntries_columns (str "2") (str "A1") (str "Eco")
              (str "Baudolino") [] [] (str "Ann") false
              [str "2"; str "A1"; str "Eco"; str "Baudolino"])
    as [Hshown Hshort].
  split; [exact Hshown|]. apply Hshort. vm_compute. lia.
Defined.

Lemma squeezed_is_str text : is_str text → is_str (squeezed text).
Proof.
  intros H. rewrite squeezed_tokens.
  apply str_join_is_str; [apply str_is_str|by apply tokens_is_str].
Qed.

Lemma kept_Some (fields : list pystr) :
  kept (Some <$> fields) = filter (λ f, f ≠ []) fields.
Proof.
  unfold kept. f_equal. rewrite <-list_fmap_compose.
  rewrite <-(list_fmap_id fields) at 2. by apply list_fmap_ext.
Qed.

Lemma MakeFtsContent_Ok decomposition table
    (shelf author title translator original_title borrowed : pystr) :
  codepoints_only decomposition → cached decomposition table →
  Forall is_str [author; title; translator; original_title] →
  Application.MakeFtsContent decomposition table
    (Some <$> [shelf; author; title; translator; original_title; borrowed])
  = Ok (UnaccentedMap.FoldText decomposition
          (str_join (str " ")
             (filter (λ f, f ≠ [])
                     [author; title; translator; original_title])),
        filled decomposition table
          (str_join (str " ")
             (filter (λ f, f ≠ [])
                     [author; title; translator; original_title]))).
Proof.
  intros Hok Hc Hs. unfold Application.MakeFtsContent.
  change (Application.slice _ _ _)
    with (Some <$> [author; title; translator; original_title]).
  rewrite omap_kept, kept_Some. apply str_translate_FoldText; [done..|].
  apply str_join_is_str; [apply str_is_str|by apply Forall_filter_keep].
Qed.

Lemma required_typed
    (shelf author title translator original_title borrowed : pystr) :
  Dialog.required
    (typed [shelf; author; title; translator; original_title; borrowed])
    [Column.SHELF; Column.AUTHOR; Column.TITLE]
  = Dialog.Return
      (negb (bool_decide (shelf = [] ∨ author = [] ∨ title = []))).
Proof.
  destruct shelf, author, title; reflexivity.
Qed.

Lemma InsertBook_typed decomposition table
    (shelf author title translator original_title borrowed : pystr)
    (lastrowid : Z) :
  codepoints_only decomposition → cached decomposition table →
  Forall is_str [author; title; translator; original_title] →
  Dialog.InsertBook decomposition table
    (typed [shelf; author; title; translator; original_title; borrowed])
    lastrowid
  = if bool_decide (shelf = [] ∨ author = [] ∨ title = [])
    then Dialog.Return (None, table)
    else Dialog.Return
           (Some [Dialog.INSERT_INTO_Books
                    (squeezed <$> [shelf; author; title; translator;
                                   original_title; borrowed]);
                  Dialog.INSERT_INTO_BooksFTS lastrowid
                    (UnaccentedMap.FoldText decomposition
                       (str_join (str " ")
                          (filter (λ f, f ≠ [])
                             (squeezed <$> [author; title; translator;
                                            original_title]))))],
            filled decomposition table
              (str_join (str " ")
                 (filter (λ f, f ≠ [])
                    (squeezed <$> [author; title; translator;
                                   original_title])))).
Proof.
  intros Hok Hc Hs. unfold Dialog.InsertBook.
  rewrite required_typed. case_bool_decide; [done|].
  cbn [negb mbind Dialog.attempt_bind].
  change (Dialog.for_each _ Dialog.field_columns)
    with (Dialog.Return
            [squeezed shelf; squeezed author; squeezed title;
             squeezed translator; squeezed original_title; squeezed borrowed]).
  cbn [mbind Dialog.attempt_bind].
  rewrite MakeFtsContent_Ok; [done..|].
  rewrite !Forall_cons in Hs. destruct Hs as (? & ? & ? & ? & _).
  repeat (apply Forall_cons; split; [by apply squeezed_is_str|]).
  apply Forall_nil_2.
Qed.

Lemma UpdateBook_typed decomposition int table
    (shelf author title translator original_title borrowed : pystr)
    (item_values : list pystr) :
  codepoints_only decomposition → cached decomposition table →
  Forall is_str [author; title; translator; original_title] →
  Dialog.UpdateBook decomposition int table
    (typed [shelf; author; title; translator; original_title; borrowed])
    item_values
  = if bool_decide (shelf = [] ∨ author = [] ∨ title = [])
    then Dialog.Return (None, table)
    else match item_values !! Column.ID with
         | None => Dialog.Throw Dialog.IndexError
         | Some cell =>
           match int cell with
           | None => Dialog.Throw (Dialog.Raised ValueError)
           | Some item_id =>
             Dialog.Return
               (Some [Dialog.UPDATE_Books
                        [shelf; author; title; translator; original_title;
                         borrowed] item_id;
                      Dialog.UPDATE_BooksFTS
                        (UnaccentedMap.FoldText decomposition
                           (str_join (str " ")
                              (filter (λ f, f ≠ [])
                                 [author; title; translator;
                                  original_title])))
                        item_id],
                filled decomposition table
                  (str_join (str " ")
                     (filter (λ f, f ≠ [])
                        [author; title; translator; original_title])))
           end
         end.
Proof.
  intros Hok Hc Hs. unfold Dialog.UpdateBook.
  rewrite required_typed. case_bool_decide; [done|].
  cbn [negb mbind Dialog.attempt_bind]. unfold Dialog.index.
  destruct (item_values !! Column.ID) as [cell|];
    cbn [mbind Dialog.attempt_bind]; [|done].
  destruct (int cell) as [item_id|];
    cbn [mbind Dialog.attempt_bind]; [|done].
  change (Dialog.for_each _ Dialog.field_columns)
    with (Dialog.Return
            [shelf; author; title; translator; original_title; borrowed]).
  cbn [mbind Dialog.attempt_bind].
  by rewrite MakeFtsContent_Ok.
Qed.

(** X14: [InsertBook] writes nothing, and leaves the dict as it is, exactly
    when the shelf, the author or the title is empty as typed.  Otherwise
    it stores the six texts with their whitespace squeezed, and indexes
    under the new row id the folded text of the non-empty stored author,
    title, translator and original title. *)
Theorem InsertBook_writes (decomposition : Z → string) (table : gmap Z pyval)
    (shelf author title translator original_title borrowed : pystr)
    (lastrowid : Z) :
  codepoints_only decomposition → cached decomposition table →
  Forall is_str [author; title; translator; original_title] →
  let texts := [shelf; author; title; translator; original_title; borrowed] in
  let indexed :=
    str_join (str " ")
      (filter (λ f, f ≠ [])
         (squeezed <$> [author; title; translator; original_title])) in
  (shelf = [] ∨ author = [] ∨ title = [] ↔
   Dialog.InsertBook decomposition table (typed texts) lastrowid
   = Dialog.Return (None, table))
  ∧ (shelf ≠ [] → author ≠ [] → title ≠ [] →
     Dialog.InsertBook decomposition table (typed texts) lastrowid
     = Dialog.Return
         (Some [Dialog.INSERT_INTO_Books (squeezed <$> texts);
                Dialog.INSERT_INTO_BooksFTS lastrowid
                  (UnaccentedMap.FoldText decomposition indexed)],
          filled decomposition table indexed)).
Proof.
  intros Hok Hc Hs texts indexed. unfold texts.
  rewrite InsertBook_typed by done. case_bool_decide as Hempty.
  - split; [done|]. intros ???. tauto.
  - split; [|done]. split; [done|]. by intros [=].
Qed.

Lemma InsertBook_writes_witness :
  (str "A1" = [] ∨ [0xC9; 0x63; 0x6F] = [] ∨ str " The  Name " = [] ↔
   Dialog.InsertBook unicodedata_decomposition ∅
     (typed [str "A1"; [0xC9; 0x63; 0x6F]; str " The  Name "; []; str " ";
             []]) 4
   = Dialog.Return (None, ∅))
  ∧ (str "A1" ≠ [] → [0xC9; 0x63; 0x6F] ≠ [] → str " The  Name " ≠ [] →
     Dialog.InsertBook unicodedata_decomposition ∅
       (typed [str "A1"; [0xC9; 0x63; 0x6F]; str " The  Name "; [];
               str " "; []]) 4
     = Dialog.Return
         (Some [Dialog.INSERT_INTO_Books
                  [str "A1"; [0xC9; 0x63; 0x6F]; str "The Name"; []; []; []];
                Dialog.INSERT_INTO_BooksFTS 4
                  (UnaccentedMap.FoldText unicodedata_decomposition
                     ([0xC9; 0x63; 0x6F] ++ str " The Name"))],
          filled unicodedata_decomposition ∅
            ([0xC9; 0x63; 0x6F] ++ str " The Name"))).
Proof.
  apply (InsertBook_writes unicodedata_decomposition ∅
           (str "A1") [0xC9; 0x63; 0x6F] (str " The  Name ") [] (str " ")
           [] 4).
  - apply unicode_data_codepoints.
  - apply cached_empty.
  - repeat (apply Forall_cons; split;
              [first [apply str_is_str
                     | unfold is_str, is_codepoint; repeat constructor; lia]
              |]).
    apply Forall_nil_2.
Defined.

(** X15: the check of the required texts looks at them as typed, the stored
    texts are squeezed afterwards: a title of whitespace only is accepted,
    the book is stored with an empty title and indexed without it, while an
    empty title is refused. *)
Theorem InsertBook_blank (decomposition : Z → string) (table : gmap Z pyval)
    (shelf author title translator original_title borrowed : pystr)
    (lastrowid : Z) :
  codepoints_only decomposition → cached decomposition table →
  Forall is_str [author; title; translator; original_title] →
  shelf ≠ [] → author ≠ [] → title ≠ [] →
  Forall (λ c, isspace c = true) title →
  let indexed :=
    str_join (str " ")
      (filter (λ f, f ≠ [])
         (squeezed <$> [author; translator; original_title])) in
  Dialog.InsertBook decomposition table
    (typed [shelf; author; title; translator; original_title; borrowed])
    lastrowid
  = Dialog.Return
      (Some [Dialog.INSERT_INTO_Books
               [squeezed shelf; squeezed author; []; squeezed translator;
                squeezed original_title; squeezed borrowed];
             Dialog.INSERT_INTO_BooksFTS lastrowid
               (UnaccentedMap.FoldText decomposition indexed)],
       filled decomposition table indexed)
  ∧ Dialog.InsertBook decomposition table
      (typed [shelf; author; []; translator; original_title; borrowed])
      lastrowid
    = Dialog.Return (None, table).
Proof.
  intros Hok Hc Hs Hshelf Hauthor Htitle Hblank indexed. split.
  - rewrite InsertBook_typed by done.
    rewrite bool_decide_eq_false_2 by tauto.
    assert (Hsq : squeezed title = [])
      by (by rewrite squeezed_tokens, tokens_blank).
    unfold indexed. rewrite !fmap_cons, Hsq.
    rewrite !(filter_cons _ (squeezed author)).
    by rewrite (filter_cons_False _ []) by (intros Hn; by apply Hn).
  - rewrite InsertBook_typed.
    + rewrite bool_decide_eq_true_2; [done|]. by right; right.
    + done.
    + done.
    + rewrite !Forall_cons in Hs |- *. destruct Hs as (? & ? & ? & ? & _).
      split_conj; first [done | apply Forall_nil_2].
Qed.

Lemma InsertBook_blank_witness :
  Dialog.InsertBook unicodedata_decomposition ∅
    (typed [str "A1"; str "Lem"; str "  "; []; str "Eden"; []]) 4
  = Dialog.Return
      (Some [Dialog.INSERT_INTO_Books
               [squeezed (str "A1"); squeezed (str "Lem"); []; squeezed [];
                squeezed (str "Eden"); squeezed []];
             Dialog.INSERT_INTO_BooksFTS 4
               (UnaccentedMap.FoldText unicodedata_decomposition
                  (str "Lem Eden"))],
       filled unicodedata_decomposition ∅ (str "Lem Eden"))
  ∧ Dialog.InsertBook unicodedata_decomposition ∅
      (typed [str "A1"; str "Lem"; []; []; str "Eden"; []]) 4
    = Dialog.Return (None, ∅).
Proof.
  apply (InsertBook_blank unicodedata_decomposition ∅
           (str "A1") (str "Lem") (str "  ") [] (str "Eden") [] 4).
  - apply unicode_data_codepoints.
  - apply cached_empty.
  - repeat (apply Forall_cons; split;
              [first [apply str_is_str | apply Forall_nil_2]|]).
    apply Forall_nil_2.
  - done.
  - done.
  - done.
  - repeat constructor.
Defined.



(** X17: opening the edit dialog on a row and confirming it without typing
    writes the row back to itself: every field returns to the column it
    was read from, although the view holds the fields in display order,
    under the id in the first cell of the row. *)
Theorem Edit_UpdateBook (decomposition : Z → string)
    (int : pystr → option Z) (table : gmap Z pyval)
    (tv : list Application.item) (iid : nat) (selection : list nat)
    (id shelf author title translator original_title borrowed : pystr)
    (item_id : Z) :
  codepoints_only decomposition → cached decomposition table →
  Forall is_str [author; title; translator; original_title] →
  shelf ≠ [] → author ≠ [] → title ≠ [] →
  Dialog.tv_item tv iid
  = Dialog.Return
      (displayed [id; shelf; author; title; translator; original_title;
                  borrowed]) →
  int id = Some item_id →
  let indexed :=
    str_join (str " ")
      (filter (λ f, f ≠ []) [author; title; translator; original_title]) in
  ∃ item_values entries,
    Dialog.Edit tv (iid :: selection)
    = Dialog.Return (Some (item_values, entries))
    ∧ Dialog.UpdateBook decomposition int table entries item_values
      = Dialog.Return
          (Some [Dialog.UPDATE_Books
                   [shelf; author; title; translator; original_title;
                    borrowed] item_id;
                 Dialog.UPDATE_BooksFTS
                   (UnaccentedMap.FoldText decomposition indexed) item_id],
           filled decomposition table indexed).
Proof.
  intros Hok Hc Hs Hshelf Hauthor Htitle Hitem Hid indexed.
  exists (displayed [id; shelf; author; title; translator; original_title;
                     borrowed]),
    (typed [shelf; author; title; translator; original_title; borrowed]).
  split.
  - unfold Dialog.Edit. rewrite Hitem. reflexivity.
  - rewrite UpdateBook_typed by done.
    rewrite bool_decide_eq_false_2 by tauto.
    change (displayed [id; shelf; author; title; translator; original_title;
                       borrowed] !! Column.ID) with (Some id).
    cbv beta iota. by rewrite Hid.
Qed.

Lemma Edit_UpdateBook_witness :
  ∃ item_values entries,
    Dialog.Edit (Application.tree_view small_window) [1%nat]
    = Dialog.Return (Some (item_values, entries))
    ∧ Dialog.UpdateBook unicodedata_decomposition int_digits ∅ entries
        item_values
      = Dialog.Return
          (Some [Dialog.UPDATE_Books
                   [str "A1"; str "Eco"; str "Baudolino"; []; []; str "Ann"]
                   2;
                 Dialog.UPDATE_BooksFTS
                   (UnaccentedMap.FoldText unicodedata_decomposition
                      (str "Eco Baudolino")) 2],
           filled unicodedata_decomposition ∅ (str "Eco Baudolino")).
Proof.
  apply (Edit_UpdateBook unicodedata_decomposition int_digits ∅
           (Application.tree_view small_window) 1 []
           (str "2") (str "A1") (str "Eco") (str "Baudolino") [] []
           (str "Ann") 2).
  - apply unicode_data_codepoints.
  - apply cached_empty.
  - repeat (apply Forall_cons; split;
              [first [apply str_is_str | apply Forall_nil_2]|]).
    apply Forall_nil_2.
  - done.
  - done.
  - done.
  - reflexivity.
  - reflexivity.
Defined.


